(** * pressxtohonk-bot: the request-dispatch pipeline of [functions/main.py]

    A shallow embedding of the webhook function: the pipeline engine
    ([safe_pipe], [add_logging], [abort_on_error]), the asset selector
    ([random_blob]), the chat handlers with their presence decorator
    ([_send_chat_action]), the handler registration and the entry point
    ([handle_request]).

    Python raises exceptions and mutates the outside world; both are made
    explicit here.  A computation is a function from the state of the world
    to an outcome (a value or the exception raised) and the new state. *)

From Stdlib Require Import String Ascii List NArith ZArith Lia Bool.
From stdpp Require Import gmap strings.
Import ListNotations.
Local Open Scope string_scope.
Local Open Scope list_scope.

(** ** Exceptions *)

(** What the wrappers of the pipeline observe of an exception raised by a
    step: whether it is an instance of [Exception] (the class named by both
    [except] clauses; [KeyboardInterrupt] and [SystemExit] are not), the name
    of its class, and [str(error)]. *)
Record PyExc := {
  exc_is_Exception : bool;
  exc_type : string;
  exc_str : string
}.

(** The two [FunctionsErrorCode]s the program builds. *)
Inductive FunctionsErrorCode := ABORTED | UNIMPLEMENTED.

(** What a pipeline, a handler or the entry point raises: either an exception
    that went through untouched, or the [https_fn.HttpsError] built by
    [abort_on_error] ([raise ... from error] records the cause) or by
    [handle_request] (no cause). *)
Inductive Raised :=
| Propagated (e : PyExc)
| HttpsError (code : FunctionsErrorCode) (message : string) (cause : option PyExc).

(** Result of calling a plain step. *)
Inductive Result (A : Type) :=
| Returns (a : A)
| Raises (e : PyExc).
Arguments Returns {A} a.
Arguments Raises {A} e.

(** Result of running a pipeline or a handler. *)
Inductive Outcome (A : Type) :=
| Ok (a : A)
| Raise (r : Raised).
Arguments Ok {A} a.
Arguments Raise {A} r.

(** ** The pipeline engine *)

Section Engine.

(** [S] is the state of whatever the steps act on, [V] the universe of the
    values that flow through a pipeline (Python is dynamically typed). *)
Context {S V : Type}.

(** The log, in the order the records are made.  [ATTEMPT], [SUCCESS] and
    [FAILURE] are the three [logging] calls of [add_logging], keeping the
    step's [__qualname__], its argument and its result or error instead of
    the formatted line.  [Invoked] marks the call of the wrapped function
    itself, with the records the step made while it ran (a step may run
    pipelines of its own). *)
#[warnings="-register-all"]
Inductive Event :=
| ATTEMPT (name : string)
| SUCCESS (name : string) (arg result : V)
| FAILURE (name : string) (arg : V) (error : PyExc)
| Invoked (name : string) (arg : V) (inner : list Event).

Record World := {
  ext : S;
  trace : list Event
}.

(** A step: a named function of one argument that acts on [S], returns or
    raises, and reports what it logged itself. *)
Record Step := {
  qualname : string;
  body : V -> S -> Result V * S * list Event
}.

(** A step wrapped by [add_logging]; [functools.wraps] keeps the name. *)
Record LoggedStep := {
  logged_qualname : string;
  logged_call : V -> World -> Result V * World
}.

(** A step wrapped by [abort_on_error] on top of that. *)
Record GuardedStep := {
  guarded_qualname : string;
  guarded_call : V -> World -> Outcome V * World
}.

Definition emit (ev : Event) (w : World) : World :=
  {| ext := ext w; trace := trace w ++ [ev] |}.

(** [add_logging]: ATTEMPT, the call, then SUCCESS and the result; an
    [Exception] is logged as FAILURE and raised again. *)
Definition add_logging (func : Step) : LoggedStep :=
  {| logged_qualname := qualname func;
     logged_call := fun arg w =>
       let w1 := emit (ATTEMPT (qualname func)) w in
       let '(res, s', inner) := body func arg (ext w1) in
       let w2 := {| ext := s';
                    trace := trace w1 ++ [Invoked (qualname func) arg inner] |} in
       match res with
       | Returns result =>
           (Returns result, emit (SUCCESS (qualname func) arg result) w2)
       | Raises error =>
           if exc_is_Exception error
           then (Raises error, emit (FAILURE (qualname func) arg error) w2)
           else (Raises error, w2)
       end |}.

(** [abort_on_error]: an [Exception] becomes
    [HttpsError('aborted', f'error in {func.__qualname__}: {error}')]. *)
Definition abort_on_error (func : LoggedStep) : GuardedStep :=
  {| guarded_qualname := logged_qualname func;
     guarded_call := fun arg w =>
       match logged_call func arg w with
       | (Returns result, w') => (Ok result, w')
       | (Raises error, w') =>
           if exc_is_Exception error
           then (Raise (HttpsError ABORTED
                          ("error in " +:+ logged_qualname func +:+ ": "
                             +:+ exc_str error)
                          (Some error)), w')
           else (Raise (Propagated error), w')
       end |}.

(** Computations that may raise, over the world. *)
Definition M (A : Type) : Type := World -> Outcome A * World.

Definition ret {A} (a : A) : M A := fun w => (Ok a, w).

Definition bind {A B} (m : M A) (f : A -> M B) : M B :=
  fun w =>
    match m w with
    | (Ok a, w') => f a w'
    | (Raise r, w') => (Raise r, w')
    end.

Definition raise {A} (r : Raised) : M A := fun w => (Raise r, w).

(** [safe_pipe]: [functools.reduce(lambda x, f: f(x), steps, value)] over
    the wrapped steps; an exception raised by [f(x)] ends the reduction. *)
Definition safe_pipe (value : V) (steps : list Step) : M V :=
  fold_left (fun x f => bind x (guarded_call f))
            (map abort_on_error (map add_logging steps))
            (ret value).

(** Direct sequential composition of the steps, without any wrapper: step
    [i+1] receives the output of step [i]. *)
Fixpoint compose (steps : list Step) (x : V) (s : S) : Result V * S :=
  match steps with
  | [] => (Returns x, s)
  | st :: rest =>
      match body st x s with
      | (Returns y, s', _) => compose rest y s'
      | (Raises e, s', _) => (Raises e, s')
      end
  end.

(** The records of a run in which the steps succeed. *)
Fixpoint success_log (steps : list Step) (x : V) (s : S) : list Event :=
  match steps with
  | [] => []
  | st :: rest =>
      match body st x s with
      | (Returns y, s', inner) =>
          ATTEMPT (qualname st) :: Invoked (qualname st) x inner
            :: SUCCESS (qualname st) x y :: success_log rest y s'
      | (Raises _, _, _) => []
      end
  end.

(** One ATTEMPT, the call, one SUCCESS, step after step. *)
Inductive paired : list Step -> list Event -> Prop :=
| paired_nil : paired [] []
| paired_cons st rest x y inner log :
    paired rest log ->
    paired (st :: rest)
           (ATTEMPT (qualname st) :: Invoked (qualname st) x inner
              :: SUCCESS (qualname st) x y :: log).

(** Names of the steps that were called, in order. *)
Fixpoint invocations (log : list Event) : list string :=
  match log with
  | [] => []
  | Invoked name _ _ :: rest => name :: invocations rest
  | _ :: rest => invocations rest
  end.

Definition is_attempt (ev : Event) : bool :=
  match ev with ATTEMPT _ => true | _ => false end.

Definition is_success (ev : Event) : bool :=
  match ev with SUCCESS _ _ _ => true | _ => false end.

(** A step that raises nothing but instances of [Exception]. *)
Definition raises_only_Exceptions (st : Step) : Prop :=
  forall x s e s' inner,
    body st x s = (Raises e, s', inner) -> exc_is_Exception e = true.

Definition raised_is_Exception (r : Raised) : bool :=
  match r with
  | Propagated e => exc_is_Exception e
  | HttpsError _ _ _ => true
  end.

(** A computation that raises nothing but instances of [Exception]. *)
Definition raises_Exceptions {A} (m : M A) : Prop :=
  forall w r w', m w = (Raise r, w') -> raised_is_Exception r = true.

End Engine.

Arguments Event V : clear implicits.
Arguments World S V : clear implicits.
Arguments Step S V : clear implicits.
Arguments LoggedStep S V : clear implicits.
Arguments GuardedStep S V : clear implicits.
Arguments M S V A : clear implicits.

(** ** Text *)

(** A Python [str] that the program inspects character by character is the
    list of its code points.  Names, error messages and URLs, which the
    program only concatenates, stay [string]s. *)
Abbreviation pystr := (list N).

(** A literal. *)
Definition py (s : string) : pystr :=
  map N_of_ascii (list_ascii_of_string s).

(** [str.isspace] on one character: the code points at which [str.split()]
    splits. *)
Definition isspace (c : N) : bool :=
  (((9 <=? c) && (c <=? 13)) || ((28 <=? c) && (c <=? 32))
  || (c =? 133) || (c =? 160) || (c =? 5760)
  || ((8192 <=? c) && (c <=? 8202))
  || (c =? 8232) || (c =? 8233) || (c =? 8239) || (c =? 8287)
  || (c =? 12288))%N.

(** [text.split()]: the maximal runs of characters that are not whitespace. *)
Fixpoint split (s : pystr) : list pystr :=
  match s with
  | [] => []
  | c :: rest =>
      if isspace c then split rest
      else
        let tokens := split rest in
        match rest with
        | [] => [[c]]
        | c' :: _ =>
            if isspace c' then [c] :: tokens
            else match tokens with
                 | w :: ws => (c :: w) :: ws
                 | [] => [[c]]
                 end
        end
  end.

(** [str.lower]: [A]..[Z] go to [a]..[z].  Every other character is left as
    it is: Unicode lower-cases some of them, none to the letter [x], which
    is all the program asks of the result. *)
Definition lower_char (c : N) : N :=
  if ((65 <=? c) && (c <=? 90))%N then (c + 32)%N else c.

Definition lower (s : pystr) : pystr := map lower_char s.

Fixpoint starts_with (p s : pystr) : bool :=
  match p, s with
  | [], _ => true
  | a :: p', b :: s' => (a =? b)%N && starts_with p' s'
  | _ :: _, [] => false
  end.

(** Left to right, replace the occurrences of [old] that do not overlap;
    [skip] characters of the occurrence just replaced are still to drop. *)
Fixpoint replace_from (skip : nat) (old new s : pystr) : pystr :=
  match s with
  | [] => []
  | c :: rest =>
      match skip with
      | Datatypes.S k => replace_from k old new rest
      | O =>
          if starts_with old s
          then new ++ replace_from (length old - 1) old new rest
          else c :: replace_from 0 old new rest
      end
  end.

(** [s.replace(old, new)]; an empty [old] matches between any two
    characters and at both ends. *)
Definition replace (old new s : pystr) : pystr :=
  match old with
  | [] => new ++ flat_map (fun c => c :: new) s
  | _ :: _ => replace_from 0 old new s
  end.

(** [sep.join(words)]. *)
Fixpoint join (sep : pystr) (words : list pystr) : pystr :=
  match words with
  | [] => []
  | [w] => w
  | w :: rest => w ++ sep ++ join sep rest
  end.

(** The reply computed by [press_x_to_honk]; [None] when the joined string
    is empty and nothing is sent. *)
Definition press_x_to_honk_reply (text : pystr) : option pystr :=
  let words := split text in
  let all_x :=
    List.filter (fun word => forallb (fun c => (c =? 120)%N) (lower word)) words in
  let honks :=
    map (fun xs => replace (py "X") (py "HONK") (replace (py "x") (py "honk") xs))
        all_x in
  let reply := join (py " ") honks in
  match reply with
  | [] => None
  | _ :: _ => Some reply
  end.

(** The same reply, described token by token: a token is kept when each of
    its characters is [x] or [X], and each [x] becomes [honk], each [X]
    becomes [HONK]. *)
Definition is_x_run (word : pystr) : bool :=
  forallb (fun c => (c =? 120)%N || (c =? 88)%N) word.

Definition honk_char (c : N) : pystr :=
  if (c =? 120)%N then py "honk" else if (c =? 88)%N then py "HONK" else [c].

Definition honks_of (text : pystr) : list pystr :=
  map (flat_map honk_char) (List.filter is_x_run (split text)).

(** The token test of the specification: one repeated character, [x] or
    [X], the same case throughout. *)
Definition is_uniform_x_run (word : pystr) : bool :=
  forallb (fun c => (c =? 120)%N) word || forallb (fun c => (c =? 88)%N) word.

(** ** Collaborators *)

Inductive ChatAction := TYPING | RECORD_VOICE | UPLOAD_PHOTO.

Abbreviation Bytes := (list N).

(** The calls the program makes to the messaging gateway (through the
    [telegram] application, its bot and the incoming message) and to the blob
    store (through the bucket). *)
Inductive Call :=
| Initialize
| Shutdown
| SetWebhook (url : string)
| SendChatAction (chat : Z) (action : ChatAction)
| ReplyMarkdown (chat : Z) (text : pystr)
| ReplyText (chat : Z) (text : pystr)
| ReplyVoice (chat : Z) (voice : Bytes) (duration : Z)
| ReplyDocument (chat : Z) (document : Bytes) (filename : string)
| ListBlobs (prefix delimiter : option string)
| Download (name : string).

(** An error raised by a library: [telegram.error.TelegramError],
    [werkzeug.exceptions.BadRequest], [google.api_core] errors, [TypeError]
    and the like are all instances of [Exception]. *)
Record LibError := {
  lib_type : string;
  lib_str : string
}.

Definition as_exc (e : LibError) : PyExc :=
  {| exc_is_Exception := true; exc_type := lib_type e; exc_str := lib_str e |}.

Definition type_error : PyExc :=
  {| exc_is_Exception := true; exc_type := "TypeError"; exc_str := "" |}.

Definition attribute_error : PyExc :=
  {| exc_is_Exception := true; exc_type := "AttributeError";
     exc_str := "'NoneType' object has no attribute 'split'" |}.

(** [random.choice] on an empty sequence. *)
Definition index_error : PyExc :=
  {| exc_is_Exception := true; exc_type := "IndexError";
     exc_str := "Cannot choose from an empty sequence" |}.

(** Modelled from the spec: the inbound event ([telegram.Update], whose
    declaration is not under src/), [{kind: COMMAND|VOICE|MEDIA|TEXT,
    command?, text?, chatId, replyToId?}]; MEDIA is the photo-or-video
    kind. *)
Inductive MediaKind := PHOTO | VIDEO.

Inductive EventKind := COMMAND | VOICE | MEDIA (m : MediaKind) | TEXT.

Record Update := {
  kind : EventKind;
  command : option string;
  text : option pystr;
  chatId : Z;
  replyToId : option Z
}.

#[warnings="-register-all"]
Inductive Json :=
| JNull
| JBool (b : bool)
| JNumber (n : Z)
| JString (s : string)
| JArray (items : list Json)
| JObject (fields : list (string * Json)).

(** [https_fn.Request]: the verb, the query string and the raw body. *)
Record Request := {
  method : string;
  query : string;
  data : string
}.

(** [https_fn.Response(body)]; the status defaults to 200. *)
Record Response := {
  status : Z;
  response_body : string
}.

Definition Response_ (body : string) : Response :=
  {| status := 200; response_body := body |}.

(** The six handlers and the error handler, as the callbacks a
    [telegram] application is given. *)
Inductive Callback :=
| cb_start | cb_help | cb_honk | cb_send_gif | cb_press_x_to_honk | cb_oops.

(** [telegram.ext.filters] expressions. *)
Inductive Filter :=
| F_VOICE | F_PHOTO | F_VIDEO | F_TEXT | F_COMMAND
| F_or (a b : Filter)
| F_and (a b : Filter)
| F_not (a : Filter).

Inductive HandlerSpec :=
| CommandHandler (name : string) (callback : Callback)
| MessageHandler (f : Filter) (callback : Callback).

(** The part of a [telegram.ext.Application] the program sets. *)
Record Application := {
  token : string;
  handlers : list HandlerSpec;
  error_handlers : list Callback
}.

(** The values that flow through the pipelines of the program. *)
Inductive Value :=
| VNone
| VStr (s : string)
| VListing (prefix delimiter : option string)
| VNames (names : list string)
| VBlob (name : string)
| VBytes (b : Bytes)
| VCoroutine (c : Call)
| VRequest (r : Request)
| VJson (j : Json)
| VUpdate (u : option Update)
| VApplication (app : Application)
| VResponse (r : Response).

(** What lies outside the program: the configuration, the libraries and the
    two services.  [respond history call] is [Some error] when [call], made
    after the calls of [history], fails. *)
Record Env := {
  BOT_TOKEN : string;
  ENDPOINT : string;
  build : string -> option LibError;
  get_json : Request -> LibError + Json;
  de_json : Json -> LibError + option Update;
  respond : list Call -> Call -> option LibError;
  objects : list string;
  content : string -> Bytes;
  draw : nat
}.

Abbreviation Log := (list (Event Value)).
Abbreviation Calls := (list Call).
Abbreviation Wd := (World Calls Value).
Abbreviation Prog := (M Calls Value).

(** One call to a collaborator, from a step. *)
Definition perform (env : Env) (c : Call) (history : Calls)
  : option LibError * Calls :=
  (respond env history c, history ++ [c]).

(** The same, awaited in a handler. *)
Definition call (env : Env) (c : Call) : Prog unit :=
  fun w =>
    let '(failure, history) := perform env c (ext w) in
    let w' := {| ext := history; trace := trace w |} in
    match failure with
    | None => (Ok tt, w')
    | Some e => (Raise (Propagated (as_exc e)), w')
    end.

(** ** Asset selector *)

Fixpoint contains (needle s : string) : bool :=
  String.prefix needle s ||
  match s with
  | EmptyString => false
  | String _ rest => contains needle rest
  end.

Definition under (prefix delimiter : option string) (name : string) : bool :=
  match prefix with
  | None =>
      match delimiter with
      | None => true
      | Some d => negb (contains d name)
      end
  | Some p =>
      String.prefix p name &&
      match delimiter with
      | None => true
      | Some d =>
          negb (contains d
                  (String.substring (String.length p)
                     (String.length name - String.length p) name))
      end
  end.

(** Modelled from the spec: the Blob Store's [list(prefix, delimiter?)]
    ([Bucket.list_blobs], a service that is not under src/): all object
    names under [prefix], optionally non-recursively, delimited at
    [delimiter]. *)
Definition list_blobs (env : Env) (prefix delimiter : option string)
  : list string :=
  List.filter (under prefix delimiter) (objects env).

(** [list({blob.name for blob in blobs if blob.name != prefix})]: the names
    other than [prefix], as a set, then listed in the order of the set. *)
Definition distinct_names (prefix : option string) (listing : list string)
  : list string :=
  elements
    (list_to_set
       (List.filter (fun name => negb (bool_decide (Some name = prefix))) listing)
     : gset string).

(** [lambda blobs: list({blob.name for blob in blobs if blob.name != prefix})];
    the listing is fetched when the iterator is consumed, here. *)
Definition names_of_blobs (env : Env) (prefix : option string)
  : Step Calls Value :=
  {| qualname := "random_blob.<locals>.<lambda>";
     body := fun blobs history =>
       match blobs with
       | VListing p d =>
           match perform env (ListBlobs p d) history with
           | (Some e, history') => (Raises (as_exc e), history', [])
           | (None, history') =>
               (Returns (VNames (distinct_names prefix (list_blobs env p d))),
                history', [])
           end
       | _ => (Raises type_error, history, [])
       end |}.

(** [random.choice]: [seq[randbelow(len(seq))]], or [IndexError]. *)
Definition random_choice (env : Env) : Step Calls Value :=
  {| qualname := "Random.choice";
     body := fun seq history =>
       match seq with
       | VNames [] => (Raises index_error, history, [])
       | VNames names =>
           (Returns (VStr (nth (draw env mod length names) names "")),
            history, [])
       | _ => (Raises type_error, history, [])
       end |}.

(** [bucket.blob]: a handle, made without any round trip. *)
Definition bucket_blob : Step Calls Value :=
  {| qualname := "Bucket.blob";
     body := fun name history =>
       match name with
       | VStr n => (Returns (VBlob n), history, [])
       | _ => (Raises type_error, history, [])
       end |}.

Definition random_blob (env : Env) (prefix delimiter : option string)
  : Prog Value :=
  safe_pipe (VListing prefix delimiter)
            [names_of_blobs env prefix; random_choice env; bucket_blob].

(** ** Handlers *)

(** [_send_chat_action(chat_action)]: the decorated handler first awaits
    [update.message.reply_chat_action(chat_action)], then the handler. *)
Definition _send_chat_action (env : Env) (chat_action : ChatAction)
    (handler : Update -> Prog unit) : Update -> Prog unit :=
  fun update =>
    bind (call env (SendChatAction (chatId update) chat_action))
         (fun _ => handler update).

(** [await value]: the coroutine runs now, and its call with it. *)
Definition await (env : Env) (value : Value) : Prog unit :=
  match value with
  | VCoroutine c => call env c
  | _ => raise (Propagated type_error)
  end.

Definition greeting : pystr :=
  py "honk honk (/help to call for help " ++ [10084; 65039]%N ++ py " "
    ++ [128298]%N ++ py ")".

Definition help_text : pystr :=
  py "It's a lovely morning in the village, and you are a horrible goose."
    ++ [10; 10]%N ++ py "*Commands*"
    ++ [10]%N ++ py "/start to say hello"
    ++ [10]%N ++ py "/help shows this message"
    ++ [10]%N ++ py "/honk to honk..?"
    ++ [10; 10]%N ++ py "*Talk to a goose*"
    ++ [10]%N ++ py "(In groups, only responds to replies to reduce spam)"
    ++ [10]%N ++ py "press x to honk"
    ++ [10]%N ++ py "press X to HONK".

Definition apology : pystr :=
  py "Sad honks (something went wrong " ++ [128148; 128298]%N ++ py ")".

Definition greet (env : Env) : Update -> Prog unit :=
  _send_chat_action env TYPING
    (fun update => call env (ReplyMarkdown (chatId update) greeting)).

Definition help_ (env : Env) : Update -> Prog unit :=
  _send_chat_action env TYPING
    (fun update => call env (ReplyMarkdown (chatId update) help_text)).

(** [lambda blob: blob.download_as_bytes()]. *)
Definition download_as_bytes (env : Env) (owner : string) : Step Calls Value :=
  {| qualname := owner +:+ ".<locals>.<lambda>";
     body := fun blob history =>
       match blob with
       | VBlob name =>
           match perform env (Download name) history with
           | (Some e, history') => (Raises (as_exc e), history', [])
           | (None, history') => (Returns (VBytes (content env name)), history', [])
           end
       | _ => (Raises type_error, history, [])
       end |}.

(** [lambda file: update.message.reply_...(file, ...)]: the lambda only
    makes the coroutine; the message is sent when it is awaited. *)
Definition reply_with (owner : string) (send : Bytes -> Call) : Step Calls Value :=
  {| qualname := owner +:+ ".<locals>.<lambda>";
     body := fun file history =>
       match file with
       | VBytes b => (Returns (VCoroutine (send b)), history, [])
       | _ => (Raises type_error, history, [])
       end |}.

Definition honk (env : Env) : Update -> Prog unit :=
  _send_chat_action env RECORD_VOICE
    (fun update =>
       bind (random_blob env (Some "audio/") None) (fun blob =>
       bind (safe_pipe blob
               [download_as_bytes env "honk";
                reply_with "honk" (fun file => ReplyVoice (chatId update) file 1)])
            (await env))).

Definition send_gif (env : Env) : Update -> Prog unit :=
  _send_chat_action env UPLOAD_PHOTO
    (fun update =>
       bind (random_blob env (Some "media/hello/") (Some "/")) (fun blob =>
       bind (safe_pipe blob
               [download_as_bytes env "send_gif";
                reply_with "send_gif"
                  (fun file => ReplyDocument (chatId update) file "hello.gif")])
            (await env))).

Definition start (env : Env) : Update -> Prog unit :=
  fun update => bind (send_gif env update) (fun _ => greet env update).

Definition press_x_to_honk (env : Env) : Update -> Prog unit :=
  _send_chat_action env TYPING
    (fun update =>
       match text update with
       | None => raise (Propagated attribute_error)
       | Some t =>
           match press_x_to_honk_reply t with
           | Some reply => call env (ReplyText (chatId update) reply)
           | None => ret tt
           end
       end).

Definition oops (env : Env) : Update -> Prog unit :=
  _send_chat_action env TYPING
    (fun update => call env (ReplyText (chatId update) apology)).

Definition run_callback (env : Env) (cb : Callback) : Update -> Prog unit :=
  match cb with
  | cb_start => start env
  | cb_help => help_ env
  | cb_honk => honk env
  | cb_send_gif => send_gif env
  | cb_press_x_to_honk => press_x_to_honk env
  | cb_oops => oops env
  end.

(** ** Command router *)

(** [AppBuilder._build_application]. *)
Definition _build_application (env : Env) : Step Calls Value :=
  {| qualname := "AppBuilder._build_application";
     body := fun tok history =>
       match tok with
       | VStr t =>
           match build env t with
           | Some e => (Raises (as_exc e), history, [])
           | None =>
               (Returns (VApplication
                           {| token := t; handlers := []; error_handlers := [] |}),
                history, [])
           end
       | _ => (Raises type_error, history, [])
       end |}.

Definition registered_handlers : list HandlerSpec :=
  [ CommandHandler "start" cb_start;
    CommandHandler "help" cb_help;
    CommandHandler "honk" cb_honk;
    MessageHandler F_VOICE cb_honk;
    MessageHandler (F_or F_PHOTO F_VIDEO) cb_send_gif;
    MessageHandler (F_and F_TEXT (F_not F_COMMAND)) cb_press_x_to_honk ].

(** [AppBuilder._register_handlers]. *)
Definition _register_handlers : Step Calls Value :=
  {| qualname := "AppBuilder._register_handlers";
     body := fun application history =>
       match application with
       | VApplication app =>
           (Returns (VApplication
                       {| token := token app;
                          handlers := handlers app ++ registered_handlers;
                          error_handlers := error_handlers app ++ [cb_oops] |}),
            history, [])
       | _ => (Raises type_error, history, [])
       end |}.

Fixpoint matches (f : Filter) (update : Update) : bool :=
  match f with
  | F_VOICE => match kind update with VOICE => true | _ => false end
  | F_PHOTO => match kind update with MEDIA PHOTO => true | _ => false end
  | F_VIDEO => match kind update with MEDIA VIDEO => true | _ => false end
  | F_TEXT => match kind update with TEXT | COMMAND => true | _ => false end
  | F_COMMAND => match kind update with COMMAND => true | _ => false end
  | F_or a b => matches a update || matches b update
  | F_and a b => matches a update && matches b update
  | F_not a => negb (matches a update)
  end.

Definition check_update (update : Update) (h : HandlerSpec) : bool :=
  match h with
  | CommandHandler name _ =>
      match kind update, command update with
      | COMMAND, Some c => String.eqb c name
      | _, _ => false
      end
  | MessageHandler f _ => matches f update
  end.

Definition callback_of (h : HandlerSpec) : Callback :=
  match h with
  | CommandHandler _ cb => cb
  | MessageHandler _ cb => cb
  end.

(** The handler selected for an event: the first whose matcher fires. *)
Definition select (app : Application) (update : Update) : option Callback :=
  option_map callback_of (List.find (check_update update) (handlers app)).

(** The error handlers run in turn; what one of them raises is logged by
    the library and goes no further. *)
Fixpoint process_error (env : Env) (callbacks : list Callback)
    (update : Update) (w : Wd) : Wd :=
  match callbacks with
  | [] => w
  | cb :: rest => process_error env rest update (snd (run_callback env cb update w))
  end.

(** Modelled from the spec: the Command Router
    ([telegram.ext.Application.process_update], a library that is not under
    src/): given an event, select exactly one handler by first match; if no
    matcher fires, the event is silently dropped; a handler invocation that
    raises is funneled to the error handlers.  An event that decoded to
    nothing matches no handler. *)
Definition process_update (env : Env) (app : Application)
    (update : option Update) (w : Wd) : Result unit * Wd :=
  match update with
  | None => (Returns tt, w)
  | Some u =>
      match select app u with
      | None => (Returns tt, w)
      | Some cb =>
          match run_callback env cb u w with
          | (Ok _, w') => (Returns tt, w')
          | (Raise r, w') =>
              match r with
              | Propagated e =>
                  if exc_is_Exception e
                  then (Returns tt, process_error env (error_handlers app) u w')
                  else (Raises e, w')
              | HttpsError _ _ _ =>
                  (Returns tt, process_error env (error_handlers app) u w')
              end
          end
      end
  end.

(** ** Request handler *)

Record RequestHandler := {
  telegram_app : Application
}.

(** [RequestHandler._extract_json_from_request]. *)
Definition _extract_json_from_request (env : Env) (self : RequestHandler)
  : Step Calls Value :=
  {| qualname := "RequestHandler._extract_json_from_request";
     body := fun request history =>
       match request with
       | VRequest r =>
           match get_json env r with
           | inl e => (Raises (as_exc e), history, [])
           | inr j => (Returns (VJson j), history, [])
           end
       | _ => (Raises type_error, history, [])
       end |}.

(** [RequestHandler._convert_json_to_update]. *)
Definition _convert_json_to_update (env : Env) (self : RequestHandler)
  : Step Calls Value :=
  {| qualname := "RequestHandler._convert_json_to_update";
     body := fun json history =>
       match json with
       | VJson j =>
           match de_json env j with
           | inl e => (Raises (as_exc e), history, [])
           | inr u => (Returns (VUpdate u), history, [])
           end
       | _ => (Raises type_error, history, [])
       end |}.

(** [RequestHandler._handle_update_with_app]: [initialize], [process_update],
    [shutdown], run to completion by [asyncio.run]. *)
Definition _handle_update_with_app (env : Env) (self : RequestHandler)
  : Step Calls Value :=
  {| qualname := "RequestHandler._handle_update_with_app";
     body := fun update history =>
       match update with
       | VUpdate u =>
           match perform env Initialize history with
           | (Some e, history1) => (Raises (as_exc e), history1, [])
           | (None, history1) =>
               match process_update env (telegram_app self) u
                       {| ext := history1; trace := [] |} with
               | (Raises e, w) => (Raises e, ext w, trace w)
               | (Returns _, w) =>
                   match perform env Shutdown (ext w) with
                   | (Some e, history2) => (Raises (as_exc e), history2, trace w)
                   | (None, history2) =>
                       (Returns (VResponse (Response_ "ok")), history2, trace w)
                   end
               end
           end
       | _ => (Raises type_error, history, [])
       end |}.

(** [RequestHandler._set_bot_webhook]. *)
Definition _set_bot_webhook (env : Env) (self : RequestHandler)
  : Step Calls Value :=
  {| qualname := "RequestHandler._set_bot_webhook";
     body := fun url history =>
       match url with
       | VStr u =>
           match perform env (SetWebhook u) history with
           | (Some e, history') => (Raises (as_exc e), history', [])
           | (None, history') =>
               (Returns (VResponse (Response_ "Set webhook")), history', [])
           end
       | _ => (Raises type_error, history, [])
       end |}.

(** ** Entry point *)

(** The application is built first, for every request; then the verb
    decides. *)
Definition handle_request (env : Env) (request : Request) : Prog Value :=
  bind (safe_pipe (VStr (BOT_TOKEN env))
                  [_build_application env; _register_handlers])
       (fun app =>
          match app with
          | VApplication a =>
              let handler := {| telegram_app := a |} in
              if String.eqb (method request) "GET" then
                safe_pipe (VStr (ENDPOINT env)) [_set_bot_webhook env handler]
              else if String.eqb (method request) "POST" then
                safe_pipe (VRequest request)
                          [_extract_json_from_request env handler;
                           _convert_json_to_update env handler;
                           _handle_update_with_app env handler]
              else
                raise (HttpsError UNIMPLEMENTED
                         (method request +:+ " not supported") None)
          | _ => raise (Propagated type_error)
          end).

(** A world in which nothing has happened yet. *)
Definition fresh : Wd := {| ext := []; trace := [] |}.

(** ** Vocabulary of the properties *)

(** The application that [handle_request] builds for every request. *)
Definition the_application (env : Env) : Application :=
  {| token := BOT_TOKEN env;
     handlers := [] ++ registered_handlers;
     error_handlers := [] ++ [cb_oops] |}.

(** The records of its construction. *)
Definition construction_log (env : Env) : Log :=
  [ ATTEMPT "AppBuilder._build_application";
    Invoked "AppBuilder._build_application" (VStr (BOT_TOKEN env)) [];
    SUCCESS "AppBuilder._build_application" (VStr (BOT_TOKEN env))
      (VApplication {| token := BOT_TOKEN env; handlers := [];
                       error_handlers := [] |});
    ATTEMPT "AppBuilder._register_handlers";
    Invoked "AppBuilder._register_handlers"
      (VApplication {| token := BOT_TOKEN env; handlers := [];
                       error_handlers := [] |}) [];
    SUCCESS "AppBuilder._register_handlers"
      (VApplication {| token := BOT_TOKEN env; handlers := [];
                       error_handlers := [] |})
      (VApplication (the_application env)) ].

(** The presence a handler emits first. *)
Definition first_presence (cb : Callback) : ChatAction :=
  match cb with
  | cb_start => UPLOAD_PHOTO
  | cb_help => TYPING
  | cb_honk => RECORD_VOICE
  | cb_send_gif => UPLOAD_PHOTO
  | cb_press_x_to_honk => TYPING
  | cb_oops => TYPING
  end.

(** The presence that goes with each kind of reply. *)
Definition announced_by (c : Call) : option ChatAction :=
  match c with
  | ReplyMarkdown _ _ | ReplyText _ _ => Some TYPING
  | ReplyVoice _ _ _ => Some RECORD_VOICE
  | ReplyDocument _ _ _ => Some UPLOAD_PHOTO
  | _ => None
  end.

Definition same_action (a b : ChatAction) : bool :=
  match a, b with
  | TYPING, TYPING | RECORD_VOICE, RECORD_VOICE | UPLOAD_PHOTO, UPLOAD_PHOTO => true
  | _, _ => false
  end.

(** In a sequence of calls, every reply comes after a presence of its kind,
    with no other presence in between; [last] is the presence emitted last
    before the sequence. *)
Fixpoint announced (last : option ChatAction) (calls : Calls) : bool :=
  match calls with
  | [] => true
  | SendChatAction _ a :: rest => announced (Some a) rest
  | c :: rest =>
      match announced_by c with
      | None => announced last rest
      | Some a =>
          match last with
          | Some b => same_action a b && announced last rest
          | None => false
          end
      end
  end.

(** What [honk] and [send_gif] do once the presence is out: pick a blob,
    download it, send it. *)
Definition fetch_and_send (env : Env) (owner : string)
    (prefix delimiter : option string) (send : Bytes -> Call) : Prog unit :=
  bind (random_blob env prefix delimiter) (fun blob =>
  bind (safe_pipe blob [download_as_bytes env owner; reply_with owner send])
       (await env)).

(** The calls this makes, after the calls of [history]. *)
Definition fetch_calls (env : Env) (prefix delimiter : option string)
    (send : Bytes -> Call) (history : Calls) : Calls :=
  ListBlobs prefix delimiter ::
  match respond env history (ListBlobs prefix delimiter) with
  | Some _ => []
  | None =>
      match distinct_names prefix (list_blobs env prefix delimiter) with
      | [] => []
      | names =>
          let name := nth (draw env mod length names) names "" in
          Download name ::
          match respond env (history ++ [ListBlobs prefix delimiter])
                        (Download name) with
          | Some _ => []
          | None => [send (content env name)]
          end
      end
  end.

(** A computation that only adds calls, each reply after its presence. *)
Definition announces {A} (m : Prog A) (last : option ChatAction) : Prop :=
  forall w : Wd,
    exists new, ext (snd (m w)) = ext w ++ new /\ announced last new = true.

(** The event of the command [/honk] sent in a chat. *)
Definition honk_command (chat : Z) : Update :=
  {| kind := COMMAND; command := Some "honk"; text := Some (py "/honk");
     chatId := chat; replyToId := None |}.

(** The chat a gateway call is addressed to, for the calls that have one. *)
Definition chat_of (c : Call) : option Z :=
  match c with
  | SendChatAction chat _ | ReplyMarkdown chat _ | ReplyText chat _
  | ReplyVoice chat _ _ | ReplyDocument chat _ _ => Some chat
  | _ => None
  end.

(** Every call of the sequence that is addressed to a chat is addressed to
    [chat]. *)
Definition addressed (chat : Z) (calls : Calls) : bool :=
  forallb (fun c => match chat_of c with
                    | Some z => Z.eqb z chat
                    | None => true
                    end) calls.

(** A computation that only adds calls, none to a chat other than [chat]. *)
Definition confined {A} (chat : Z) (m : Prog A) : Prop :=
  forall w : Wd,
    exists new, ext (snd (m w)) = ext w ++ new /\ addressed chat new = true.

(** The same environment when the random generator draws [k]. *)
Definition with_draw (k : nat) (env : Env) : Env :=
  {| BOT_TOKEN := BOT_TOKEN env; ENDPOINT := ENDPOINT env;
     build := build env;
     get_json := get_json env; de_json := de_json env;
     respond := respond env; objects := objects env;
     content := content env; draw := k |}.

(** The outcome is the handle of the blob [name]. *)
Definition picks (outcome : Outcome Value) (name : string) : bool :=
  match outcome with
  | Ok (VBlob n) => String.eqb n name
  | _ => false
  end.

(** ** Sample inputs *)

(** Two steps on numbers that count their calls, and one that raises. *)
Definition incr : Step nat nat :=
  {| qualname := "incr"; body := fun n calls => (Returns (n + 1), calls + 1, []) |}.

Definition twice : Step nat nat :=
  {| qualname := "twice"; body := fun n calls => (Returns (2 * n), calls + 1, []) |}.

Definition failing (e : PyExc) : Step nat nat :=
  {| qualname := "failing"; body := fun n calls => (Raises e, calls + 1, []) |}.

Definition value_error : PyExc :=
  {| exc_is_Exception := true; exc_type := "ValueError"; exc_str := "bad value" |}.

Definition keyboard_interrupt : PyExc :=
  {| exc_is_Exception := false; exc_type := "KeyboardInterrupt"; exc_str := "" |}.

Definition idle : World nat nat := {| ext := 0; trace := [] |}.

Definition network_error : LibError :=
  {| lib_type := "NetworkError"; lib_str := "connection refused" |}.

Definition bad_request : LibError :=
  {| lib_type := "BadRequest"; lib_str := "400 Bad Request" |}.

Definition voice_note : Update :=
  {| kind := VOICE; command := None; text := None; chatId := 7;
     replyToId := None |}.

Definition help_command : Update :=
  {| kind := COMMAND; command := Some "help"; text := Some (py "/help");
     chatId := 7; replyToId := None |}.

(** An environment in which the libraries accept every input and the body
    of every request decodes to [update]; the services answer as [answers]
    says and the bucket holds [names]. *)
Definition sample_env (names : list string)
    (answers : list Call -> Call -> option LibError) (update : option Update)
  : Env :=
  {| BOT_TOKEN := "123:abc";
     ENDPOINT := "https://bot.example/hook";
     build := fun _ => None;
     get_json := fun r => inr (JString (data r));
     de_json := fun _ => inr update;
     respond := answers;
     objects := names;
     content := fun _ => [79; 103; 103; 83]%N;
     draw := 5 |}.

Definition all_fine : list Call -> Call -> option LibError := fun _ _ => None.


(** Only the presence indicator fails. *)
Definition presence_fails : list Call -> Call -> option LibError :=
  fun _ c =>
    match c with
    | SendChatAction _ _ => Some network_error
    | _ => None
    end.

(** Only [initialize] fails. *)
Definition initialize_fails : list Call -> Call -> option LibError :=
  fun _ c =>
    match c with
    | Initialize => Some network_error
    | _ => None
    end.

Definition audio_store : list string := ["audio/"; "audio/a.ogg"; "audio/b.ogg"].

Definition invalid_token : LibError :=
  {| lib_type := "InvalidToken"; lib_str := "invalid token" |}.

(** The same environment with a token the library refuses. *)
Definition with_bad_token (env : Env) : Env :=
  {| BOT_TOKEN := BOT_TOKEN env; ENDPOINT := ENDPOINT env;
     build := fun _ => Some invalid_token;
     get_json := get_json env; de_json := de_json env;
     respond := respond env; objects := objects env;
     content := content env; draw := draw env |}.

(** The same environment configured with another endpoint. *)
Definition with_endpoint (url : string) (env : Env) : Env :=
  {| BOT_TOKEN := BOT_TOKEN env; ENDPOINT := url;
     build := build env;
     get_json := get_json env; de_json := de_json env;
     respond := respond env; objects := objects env;
     content := content env; draw := draw env |}.

Definition put_request : Request :=
  {| method := "PUT"; query := ""; data := "" |}.

Definition post_request : Request :=
  {| method := "POST"; query := ""; data := "{}" |}.

(** A GET that carries a URL of its own, in the query and in the body. *)
Definition get_request : Request :=
  {| method := "GET"; query := "url=https://elsewhere.example/hook";
     data := "https://elsewhere.example/hook" |}.


(** The world once the application is initialized. *)
Definition started : Wd := {| ext := [Initialize]; trace := [] |}.


(** The same environment when the body of the request is not JSON. *)
Definition with_invalid_body (env : Env) : Env :=
  {| BOT_TOKEN := BOT_TOKEN env; ENDPOINT := ENDPOINT env;
     build := build env;
     get_json := fun _ => inl bad_request; de_json := de_json env;
     respond := respond env; objects := objects env;
     content := content env; draw := draw env |}.

(** A command no handler is registered for. *)
Definition unknown_command : Update :=
  {| kind := COMMAND; command := Some "quack"; text := Some (py "/quack");
     chatId := 7; replyToId := None |}.

(** The store is unreachable; the gateway answers. *)
Definition store_down : list Call -> Call -> option LibError :=
  fun _ c =>
    match c with
    | ListBlobs _ _ | Download _ => Some network_error
    | _ => None
    end.

(** Only [shutdown] fails. *)
Definition shutdown_fails : list Call -> Call -> option LibError :=
  fun _ c =>
    match c with
    | Shutdown => Some network_error
    | _ => None
    end.

Definition start_command : Update :=
  {| kind := COMMAND; command := Some "start"; text := Some (py "/start");
     chatId := 7; replyToId := None |}.

Definition photo : Update :=
  {| kind := MEDIA PHOTO; command := None; text := None; chatId := 7;
     replyToId := None |}.

(** A bucket with a directory marker, one greeting image and one image in a
    deeper folder. *)
Definition gif_store : list string :=
  ["media/hello/"; "media/hello/wave.gif"; "media/hello/old/bye.gif"].

(** * Properties *)

(** ** The pipeline engine *)

Section EngineFacts.

Context {S V : Type}.

Implicit Types (steps pre post : list (Step S V)) (st : Step S V).
Implicit Types (w : World S V) (v vk : V) (s sk : S).

Lemma world_eta w : {| ext := ext w; trace := trace w |} = w.
Proof. destruct w; reflexivity. Qed.

Lemma reduce_ext (fs : list (GuardedStep S V)) :
  forall (m1 m2 : M S V V) w1 w2,
    m1 w1 = m2 w2 ->
    fold_left (fun x f => bind x (guarded_call f)) fs m1 w1
    = fold_left (fun x f => bind x (guarded_call f)) fs m2 w2.
Proof.
  induction fs as [|f fs IH]; intros m1 m2 w1 w2 E; simpl.
  - exact E.
  - apply IH. unfold bind. rewrite E. reflexivity.
Qed.

Lemma reduce_raise (fs : list (GuardedStep S V)) :
  forall r w,
    fold_left (fun x f => bind x (guarded_call f)) fs (raise r) w = (Raise r, w).
Proof.
  induction fs as [|f fs IH]; intros r w; simpl.
  - reflexivity.
  - rewrite <- (IH r w). apply reduce_ext. reflexivity.
Qed.

Lemma safe_pipe_nil v w : safe_pipe v [] w = (Ok v, w).
Proof. reflexivity. Qed.

(** The reduction, one step at a time. *)
Lemma safe_pipe_cons st steps v w :
  safe_pipe v (st :: steps) w
  = match guarded_call (abort_on_error (add_logging st)) v w with
    | (Ok y, w') => safe_pipe y steps w'
    | (Raise r, w') => (Raise r, w')
    end.
Proof.
  unfold safe_pipe. cbn [map fold_left].
  destruct (guarded_call (abort_on_error (add_logging st)) v w) as [[y|r] w'] eqn:E.
  - apply reduce_ext. unfold bind, ret. exact E.
  - rewrite <- (reduce_raise (map abort_on_error (map add_logging steps)) r w').
    apply reduce_ext.
    unfold bind, ret, raise. exact E.
Qed.

(** What the two wrappers make of one call. *)
Lemma wrapped_returns st v w y s' inner :
  body st v (ext w) = (Returns y, s', inner) ->
  guarded_call (abort_on_error (add_logging st)) v w
  = (Ok y, {| ext := s';
              trace := trace w ++ [ATTEMPT (qualname st);
                                   Invoked (qualname st) v inner;
                                   SUCCESS (qualname st) v y] |}).
Proof.
  intros E. cbn. rewrite E. cbn. unfold emit; cbn.
  rewrite <- !app_assoc. reflexivity.
Qed.

Lemma wrapped_raises st v w e s' inner :
  body st v (ext w) = (Raises e, s', inner) ->
  exc_is_Exception e = true ->
  guarded_call (abort_on_error (add_logging st)) v w
  = (Raise (HttpsError ABORTED
              ("error in " +:+ qualname st +:+ ": " +:+ exc_str e) (Some e)),
     {| ext := s';
        trace := trace w ++ [ATTEMPT (qualname st);
                             Invoked (qualname st) v inner;
                             FAILURE (qualname st) v e] |}).
Proof.
  intros E He. cbn. rewrite E. cbn. rewrite He. cbn. rewrite He.
  unfold emit; cbn. rewrite <- !app_assoc. reflexivity.
Qed.

Lemma wrapped_passes st v w e s' inner :
  body st v (ext w) = (Raises e, s', inner) ->
  exc_is_Exception e = false ->
  guarded_call (abort_on_error (add_logging st)) v w
  = (Raise (Propagated e),
     {| ext := s';
        trace := trace w ++ [ATTEMPT (qualname st);
                             Invoked (qualname st) v inner] |}).
Proof.
  intros E He. cbn. rewrite E. cbn. rewrite He. cbn. rewrite He.
  unfold emit; cbn. rewrite <- !app_assoc. reflexivity.
Qed.

Lemma compose_cons_inv st steps v s r s' :
  compose (st :: steps) v s = (Returns r, s') ->
  exists y s1 inner,
    body st v s = (Returns y, s1, inner) /\ compose steps y s1 = (Returns r, s').
Proof.
  simpl. destruct (body st v s) as [[[y|e] s1] inner] eqn:E; intros H.
  - exists y, s1, inner. split; [reflexivity | exact H].
  - discriminate H.
Qed.

(** A run whose steps all succeed. *)
Lemma safe_pipe_succeeds steps :
  forall v w r s',
    compose steps v (ext w) = (Returns r, s') ->
    safe_pipe v steps w
    = (Ok r, {| ext := s'; trace := trace w ++ success_log steps v (ext w) |}).
Proof.
  induction steps as [|st steps IH]; intros v w r s' H.
  - simpl in H. injection H as <- <-. rewrite safe_pipe_nil.
    simpl. rewrite app_nil_r, world_eta. reflexivity.
  - destruct (compose_cons_inv _ _ _ _ _ _ H) as (y & s1 & inner & E & Hrest).
    rewrite safe_pipe_cons, (wrapped_returns _ _ _ _ _ _ E).
    rewrite (IH y _ r s') by exact Hrest.
    simpl. rewrite E. rewrite <- app_assoc. reflexivity.
Qed.

Lemma success_log_paired steps :
  forall v s r s',
    compose steps v s = (Returns r, s') ->
    paired steps (success_log steps v s).
Proof.
  induction steps as [|st steps IH]; intros v s r s' H.
  - constructor.
  - destruct (compose_cons_inv _ _ _ _ _ _ H) as (y & s1 & inner & E & Hrest).
    simpl. rewrite E. constructor. eapply IH; eassumption.
Qed.

Lemma paired_invocations steps log :
  paired steps log -> invocations log = map qualname steps.
Proof. induction 1; simpl; congruence. Qed.

Lemma paired_attempts steps log :
  paired steps log -> length (List.filter is_attempt log) = length steps.
Proof. induction 1; simpl; congruence. Qed.

Lemma paired_successes steps log :
  paired steps log -> length (List.filter is_success log) = length steps.
Proof. induction 1; simpl; congruence. Qed.

Lemma invocations_app (l1 l2 : list (Event V)) :
  invocations (l1 ++ l2) = invocations l1 ++ invocations l2.
Proof.
  induction l1 as [|ev l1 IH]; simpl; [reflexivity|].
  destruct ev; simpl; rewrite IH; reflexivity.
Qed.

(** The steps that succeed in front of the others. *)
Lemma safe_pipe_app pre :
  forall steps v w vk sk,
    compose pre v (ext w) = (Returns vk, sk) ->
    safe_pipe v (pre ++ steps) w
    = safe_pipe vk steps
        {| ext := sk; trace := trace w ++ success_log pre v (ext w) |}.
Proof.
  induction pre as [|st pre IH]; intros steps v w vk sk H.
  - simpl in H. injection H as <- <-. simpl.
    rewrite app_nil_r, world_eta. reflexivity.
  - destruct (compose_cons_inv _ _ _ _ _ _ H) as (y & s1 & inner & E & Hrest).
    rewrite <- app_comm_cons, safe_pipe_cons, (wrapped_returns _ _ _ _ _ _ E).
    rewrite (IH steps y _ vk sk) by exact Hrest.
    simpl. rewrite E. rewrite <- app_assoc. reflexivity.
Qed.

(** A run whose step k raises an [Exception]. *)
Lemma safe_pipe_fails pre st post v w vk sk (e : PyExc) (s' : S)
    (inner : list (Event V)) :
  compose pre v (ext w) = (Returns vk, sk) ->
  body st vk sk = (Raises e, s', inner) ->
  exc_is_Exception e = true ->
  safe_pipe v (pre ++ st :: post) w
  = (Raise (HttpsError ABORTED
              ("error in " +:+ qualname st +:+ ": " +:+ exc_str e) (Some e)),
     {| ext := s';
        trace := trace w ++ success_log pre v (ext w)
                   ++ [ATTEMPT (qualname st); Invoked (qualname st) vk inner;
                       FAILURE (qualname st) vk e] |}).
Proof.
  intros Hpre Hst He.
  rewrite (safe_pipe_app pre (st :: post) v w vk sk Hpre), safe_pipe_cons.
  rewrite (wrapped_raises st vk
             {| ext := sk; trace := trace w ++ success_log pre v (ext w) |}
             e s' inner Hst He).
  cbn [trace]. rewrite <- app_assoc. reflexivity.
Qed.

Lemma safe_pipe_raises_Exceptions steps :
  Forall raises_only_Exceptions steps ->
  forall v, raises_Exceptions (safe_pipe v steps).
Proof.
  induction 1 as [|st steps Hst _ IH]; intros v w r w' H.
  - discriminate H.
  - rewrite safe_pipe_cons in H.
    destruct (body st v (ext w)) as [[[y|e] s1] inner] eqn:E.
    + rewrite (wrapped_returns _ _ _ _ _ _ E) in H. exact (IH _ _ _ _ H).
    + rewrite (wrapped_raises _ _ _ _ _ _ E (Hst _ _ _ _ _ E)) in H.
      injection H as <- _. reflexivity.
Qed.

Lemma bind_raises_Exceptions {A B} (m : M S V A) (f : A -> M S V B) :
  raises_Exceptions m -> (forall a, raises_Exceptions (f a)) ->
  raises_Exceptions (bind m f).
Proof.
  intros Hm Hf w r w' H. unfold bind in H.
  destruct (m w) as [[a|r0] w0] eqn:E.
  - exact (Hf a _ _ _ H).
  - injection H as <- _. exact (Hm _ _ _ E).
Qed.

Lemma ret_raises_Exceptions {A} (a : A) : raises_Exceptions (@ret S V A a).
Proof. intros w r w' H. discriminate H. Qed.

End EngineFacts.

(** C1, as the code has it: when step k raises an exception that is an
    instance of [Exception] and the steps before it succeed, the run raises
    one [HttpsError] with code ABORTED, whose message is
    "error in <name of step k>: <str of the exception>" and whose cause is
    that exception; the steps called are steps 1..k, in order, each of the
    first k-1 with its ATTEMPT and SUCCESS records and step k with ATTEMPT
    and FAILURE; the steps after k are not called and the state is the one
    step k left. *)
Theorem safe_pipe_aborts_at_first_failure {S V : Type}
    (pre : list (Step S V)) (st : Step S V) (post : list (Step S V))
    (v : V) (w : World S V) (vk : V) (sk : S) (e : PyExc) (s' : S)
    (inner : list (Event V)) :
  compose pre v (ext w) = (Returns vk, sk) ->
  body st vk sk = (Raises e, s', inner) ->
  exc_is_Exception e = true ->
  exists log_pre,
    safe_pipe v (pre ++ st :: post) w
    = (Raise (HttpsError ABORTED
                ("error in " +:+ qualname st +:+ ": " +:+ exc_str e) (Some e)),
       {| ext := s';
          trace := trace w ++ log_pre
                     ++ [ATTEMPT (qualname st); Invoked (qualname st) vk inner;
                         FAILURE (qualname st) vk e] |})
    /\ paired pre log_pre
    /\ invocations (log_pre ++ [ATTEMPT (qualname st);
                                Invoked (qualname st) vk inner;
                                FAILURE (qualname st) vk e])
       = map qualname pre ++ [qualname st].
Proof.
  intros Hpre Hst He.
  exists (success_log pre v (ext w)).
  assert (P : paired pre (success_log pre v (ext w)))
    by (eapply success_log_paired; eassumption).
  split; [|split].
  - apply (safe_pipe_fails pre st post v w vk sk e s' inner Hpre Hst He).
  - exact P.
  - rewrite invocations_app, (paired_invocations _ _ P). reflexivity.
Qed.

Lemma safe_pipe_aborts_at_first_failure_witness :
  compose [incr] 3 (ext idle) = (Returns 4, 1)
  /\ body (failing value_error) 4 1 = (Raises value_error, 2, [])
  /\ exc_is_Exception value_error = true
  /\ exists log_pre,
       safe_pipe 3 ([incr] ++ failing value_error :: [twice]) idle
       = (Raise (HttpsError ABORTED
                   ("error in " +:+ "failing" +:+ ": " +:+ "bad value")
                   (Some value_error)),
          {| ext := 2;
             trace := trace idle ++ log_pre
                        ++ [ATTEMPT "failing"; Invoked "failing" 4 [];
                            FAILURE "failing" 4 value_error] |})
       /\ paired [incr] log_pre
       /\ invocations (log_pre ++ [ATTEMPT "failing"; Invoked "failing" 4 [];
                                   FAILURE "failing" 4 value_error])
          = map qualname [incr] ++ ["failing"].
Proof.
  split; [reflexivity|]. split; [reflexivity|]. split; [reflexivity|].
  apply (safe_pipe_aborts_at_first_failure
           [incr] (failing value_error) [twice] 3 idle 4 1 value_error 2 []);
    reflexivity.
Defined.

(** C1, as stated, fails: a step that raises [KeyboardInterrupt], which is
    not an [Exception], is neither logged as a failure nor translated; the
    run raises the exception itself and no [HttpsError]. *)
Lemma safe_pipe_lets_non_Exception_through :
  body (failing keyboard_interrupt) 3 0 = (Raises keyboard_interrupt, 1, [])
  /\ safe_pipe 3 [failing keyboard_interrupt; twice] idle
     = (Raise (Propagated keyboard_interrupt),
        {| ext := 1; trace := [ATTEMPT "failing"; Invoked "failing" 3 []] |})
  /\ ~ (exists code message cause,
          fst (safe_pipe 3 [failing keyboard_interrupt; twice] idle)
          = Raise (HttpsError code message cause)).
Proof.
  split; [reflexivity|]. split; [reflexivity|].
  intros (code & message & cause & H). discriminate H.
Qed.

(** C2: when every step succeeds, the run returns the value of the direct
    sequential composition of the steps and leaves the state it leaves; the
    records added are, for each step in order, one ATTEMPT, the call, one
    SUCCESS, so as many ATTEMPTs and as many SUCCESSes as steps; and the
    empty sequence returns the initial value, the world unchanged. *)
Theorem safe_pipe_refines_composition {S V : Type}
    (steps : list (Step S V)) (v : V) (w : World S V) (r : V) (s' : S) :
  compose steps v (ext w) = (Returns r, s') ->
  exists log,
    safe_pipe v steps w = (Ok r, {| ext := s'; trace := trace w ++ log |})
    /\ paired steps log
    /\ length (List.filter is_attempt log) = length steps
    /\ length (List.filter is_success log) = length steps
    /\ invocations log = map qualname steps
    /\ safe_pipe v [] w = (Ok v, w).
Proof.
  intros H. exists (success_log steps v (ext w)).
  assert (P : paired steps (success_log steps v (ext w)))
    by (eapply success_log_paired; eassumption).
  repeat split.
  - apply safe_pipe_succeeds. exact H.
  - exact P.
  - apply paired_attempts. exact P.
  - apply paired_successes. exact P.
  - apply paired_invocations. exact P.
Qed.

Lemma safe_pipe_refines_composition_witness :
  compose [incr; twice] 3 (ext idle) = (Returns 8, 2)
  /\ exists log,
       safe_pipe 3 [incr; twice] idle
       = (Ok 8, {| ext := 2; trace := trace idle ++ log |})
       /\ paired [incr; twice] log
       /\ length (List.filter is_attempt log) = length [incr; twice]
       /\ length (List.filter is_success log) = length [incr; twice]
       /\ invocations log = map qualname [incr; twice]
       /\ safe_pipe 3 [] idle = (Ok 3, idle).
Proof.
  split; [reflexivity|].
  apply (safe_pipe_refines_composition [incr; twice] 3 idle 8 2). reflexivity.
Defined.

(** ** Text *)

Lemma lower_char_is_x (c : N) :
  (lower_char c =? 120)%N = ((c =? 120) || (c =? 88))%N.
Proof.
  unfold lower_char.
  destruct (N.leb_spec 65 c), (N.leb_spec c 90); cbn [andb];
    destruct (N.eqb_spec c 120), (N.eqb_spec c 88); cbn [orb];
    try reflexivity;
    try (apply N.eqb_eq; lia); try (apply N.eqb_neq; lia); exfalso; lia.
Qed.

Lemma all_x_lower (word : pystr) :
  forallb (fun c => (c =? 120)%N) (lower word) = is_x_run word.
Proof.
  induction word as [|c word IH]; [reflexivity|].
  cbn [lower map forallb is_x_run] in *.
  rewrite lower_char_is_x. unfold lower in IH. rewrite IH. reflexivity.
Qed.

(** Replacing one character is a substitution character by character. *)
Lemma replace_one_char (a : N) (new s : pystr) :
  replace [a] new s = flat_map (fun c => if (c =? a)%N then new else [c]) s.
Proof.
  unfold replace.
  induction s as [|c s IH]; [reflexivity|].
  cbn [replace_from starts_with length Nat.sub flat_map].
  rewrite (N.eqb_sym a c), andb_true_r.
  destruct (c =? a)%N; rewrite IH; reflexivity.
Qed.

Lemma flat_map_flat_map {A B C : Type} (f : A -> list B) (g : B -> list C)
    (l : list A) :
  flat_map g (flat_map f l) = flat_map (fun a => flat_map g (f a)) l.
Proof.
  induction l as [|a l IH]; [reflexivity|].
  cbn [flat_map]. rewrite flat_map_app, IH. reflexivity.
Qed.

Lemma replace_x_then_X (word : pystr) :
  replace (py "X") (py "HONK") (replace (py "x") (py "honk") word)
  = flat_map honk_char word.
Proof.
  change (py "X") with [88%N]. change (py "x") with [120%N].
  rewrite !replace_one_char, flat_map_flat_map.
  apply flat_map_ext. intros c. unfold honk_char.
  destruct (c =? 120)%N; [reflexivity|].
  cbn [flat_map]. rewrite app_nil_r. reflexivity.
Qed.

Lemma all_x_filter (words : list pystr) :
  List.filter (fun word => forallb (fun c => (c =? 120)%N) (lower word)) words
  = List.filter is_x_run words.
Proof. apply filter_ext. intros word. apply all_x_lower. Qed.

Lemma split_nonempty (s : pystr) : Forall (fun word => word <> []) (split s).
Proof.
  induction s as [|c rest IH]; [constructor|].
  cbn [split]. destruct (isspace c); [exact IH|].
  destruct rest as [|c' rest']; [repeat constructor; discriminate|].
  destruct (isspace c').
  - constructor; [discriminate | exact IH].
  - destruct (split (c' :: rest')) as [|word words].
    + repeat constructor; discriminate.
    + inversion IH; subst. constructor; [discriminate | assumption].
Qed.

(** No token holds a whitespace character. *)
Lemma split_no_space (s : pystr) :
  Forall (fun word => forallb (fun c => negb (isspace c)) word = true) (split s).
Proof.
  induction s as [|c rest IH]; [constructor|].
  cbn [split]. destruct (isspace c) eqn:Hc; [exact IH|].
  assert (H1 : forallb (fun c => negb (isspace c)) [c] = true)
    by (cbn; rewrite Hc; reflexivity).
  destruct rest as [|c' rest']; [repeat constructor; exact H1|].
  destruct (isspace c').
  - constructor; [exact H1 | exact IH].
  - destruct (split (c' :: rest')) as [|word words].
    + repeat constructor; exact H1.
    + inversion IH; subst. constructor; [|assumption].
      cbn [forallb]. rewrite Hc. assumption.
Qed.

Lemma honk_char_nonempty (c : N) : honk_char c <> [].
Proof.
  unfold honk_char. destruct (c =? 120)%N; [discriminate|].
  destruct (c =? 88)%N; discriminate.
Qed.

Lemma join_nonempty (sep word : pystr) (words : list pystr) :
  word <> [] -> join sep (word :: words) <> [].
Proof.
  intros H. destruct words as [|w' words]; cbn [join]; [exact H|].
  destruct word; [contradiction | discriminate].
Qed.

Lemma honks_of_nonempty (text : pystr) :
  Forall (fun h => h <> []) (honks_of text).
Proof.
  unfold honks_of. apply Forall_map.
  assert (H := split_nonempty text).
  induction H as [|word words Hw _ IH]; cbn [List.filter]; [constructor|].
  destruct (is_x_run word); [|exact IH].
  constructor; [|exact IH].
  destruct word as [|c word]; [contradiction|].
  cbn [flat_map]. intros E. apply app_eq_nil in E.
  exact (honk_char_nonempty c (proj1 E)).
Qed.

(** The reply of the code is the one described token by token. *)
Lemma press_x_to_honk_reply_tokens (text : pystr) :
  press_x_to_honk_reply text
  = match honks_of text with
    | [] => None
    | _ :: _ => Some (join (py " ") (honks_of text))
    end.
Proof.
  unfold press_x_to_honk_reply. rewrite all_x_filter.
  rewrite (map_ext _ (flat_map honk_char) replace_x_then_X).
  fold (honks_of text).
  assert (H := honks_of_nonempty text).
  destruct (honks_of text) as [|h hs]; [reflexivity|].
  inversion H; subst.
  destruct (join (py " ") (h :: hs)) eqn:E; [|reflexivity].
  exfalso. eapply join_nonempty; eassumption.
Qed.

(** C3, as the code has it: the text is split at whitespace; a token is
    kept when each of its characters is [x] or [X], in any mix of the two
    cases; in a kept token each [x] becomes "honk" and each [X] "HONK"; the
    results are joined with single spaces; the handler, once its typing
    presence is sent, sends that string as a text reply, and sends nothing
    when no token is kept.  So "press x to honk" is answered "honk",
    "press X to HONK" is answered "HONK", "hello world" gets no reply and
    "xX yes" is answered "honkHONK". *)
Theorem press_x_to_honk_honks :
  (forall t : pystr,
     press_x_to_honk_reply t
     = match honks_of t with
       | [] => None
       | _ :: _ => Some (join (py " ") (honks_of t))
       end)
  /\ (forall (env : Env) (update : Update) (w : Wd),
        ext (snd (press_x_to_honk env update w))
        = ext w ++ SendChatAction (chatId update) TYPING ::
            match respond env (ext w) (SendChatAction (chatId update) TYPING) with
            | Some _ => []
            | None =>
                match text update with
                | None => []
                | Some t =>
                    match honks_of t with
                    | [] => []
                    | _ :: _ => [ReplyText (chatId update)
                                           (join (py " ") (honks_of t))]
                    end
                end
            end)
  /\ press_x_to_honk_reply (py "press x to honk") = Some (py "honk")
  /\ press_x_to_honk_reply (py "press X to HONK") = Some (py "HONK")
  /\ press_x_to_honk_reply (py "hello world") = None
  /\ press_x_to_honk_reply (py "xX yes") = Some (py "honkHONK").
Proof.
  split; [exact press_x_to_honk_reply_tokens|].
  split; [|repeat split].
  intros env update w.
  unfold press_x_to_honk, _send_chat_action, bind, call, perform.
  destruct (respond env (ext w) (SendChatAction (chatId update) TYPING));
    cbn [snd ext]; [reflexivity|].
  destruct (text update) as [t|]; [|reflexivity].
  rewrite press_x_to_honk_reply_tokens.
  destruct (honks_of t) as [|h hs]; [reflexivity|].
  unfold call, perform. cbn [ext].
  destruct (respond env _ _); cbn [snd ext]; rewrite <- app_assoc; reflexivity.
Qed.

(** C3, as stated, fails: the mixed-case token "xX" is not excluded and
    "xX yes" is answered; and "press x to honk" is answered with one
    "honk", the token "honk" not being made of [x]. *)
Lemma press_x_to_honk_keeps_mixed_case :
  is_uniform_x_run (py "xX") = false
  /\ press_x_to_honk_reply (py "xX yes") <> None
  /\ press_x_to_honk_reply (py "press x to honk") <> Some (py "honk honk")
  /\ press_x_to_honk_reply (py "press X to HONK") <> Some (py "HONK HONK").
Proof. repeat split; discriminate. Qed.

(** ** Asset selector *)

Lemma distinct_names_In (prefix : option string) (listing : list string)
    (name : string) :
  In name (distinct_names prefix listing)
  <-> In name listing /\ Some name <> prefix.
Proof.
  unfold distinct_names.
  rewrite <- list_elem_of_In, elem_of_elements, elem_of_list_to_set.
  rewrite list_elem_of_In, filter_In, negb_true_iff, bool_decide_eq_false.
  reflexivity.
Qed.

Lemma names_of_blobs_returns env prefix p d history :
  respond env history (ListBlobs p d) = None ->
  body (names_of_blobs env prefix) (VListing p d) history
  = (Returns (VNames (distinct_names prefix (list_blobs env p d))),
     history ++ [ListBlobs p d], []).
Proof.
  intros H. cbn [body names_of_blobs]. unfold perform. rewrite H. reflexivity.
Qed.

Lemma names_of_blobs_raises env prefix p d history e :
  respond env history (ListBlobs p d) = Some e ->
  body (names_of_blobs env prefix) (VListing p d) history
  = (Raises (as_exc e), history ++ [ListBlobs p d], []).
Proof.
  intros H. cbn [body names_of_blobs]. unfold perform. rewrite H. reflexivity.
Qed.

(** The listing failed: the first step is the one that aborts. *)
Lemma random_blob_listing_fails env prefix delimiter (w : Wd) e :
  respond env (ext w) (ListBlobs prefix delimiter) = Some e ->
  fst (random_blob env prefix delimiter w)
  = Raise (HttpsError ABORTED
             ("error in random_blob.<locals>.<lambda>: " +:+ lib_str e)
             (Some (as_exc e)))
  /\ ext (snd (random_blob env prefix delimiter w))
     = ext w ++ [ListBlobs prefix delimiter].
Proof.
  intros H. unfold random_blob.
  assert (E := safe_pipe_fails [] (names_of_blobs env prefix)
                 [random_choice env; bucket_blob] (VListing prefix delimiter) w
                 (VListing prefix delimiter) (ext w) (as_exc e)
                 (ext w ++ [ListBlobs prefix delimiter]) [] eq_refl
                 (names_of_blobs_raises _ _ _ _ _ _ H) eq_refl).
  cbn [app] in E. rewrite E. split; reflexivity.
Qed.

(** The listing answered and nothing is left to choose from. *)
Lemma random_blob_nothing_to_choose env prefix delimiter (w : Wd) :
  respond env (ext w) (ListBlobs prefix delimiter) = None ->
  distinct_names prefix (list_blobs env prefix delimiter) = [] ->
  fst (random_blob env prefix delimiter w)
  = Raise (HttpsError ABORTED
             "error in Random.choice: Cannot choose from an empty sequence"
             (Some index_error))
  /\ ext (snd (random_blob env prefix delimiter w))
     = ext w ++ [ListBlobs prefix delimiter].
Proof.
  intros H Hnil. unfold random_blob.
  assert (C : compose [names_of_blobs env prefix] (VListing prefix delimiter)
                (ext w)
              = (Returns (VNames []), ext w ++ [ListBlobs prefix delimiter])).
  { cbn [compose]. rewrite (names_of_blobs_returns _ _ _ _ _ H), Hnil.
    reflexivity. }
  assert (E := safe_pipe_fails [names_of_blobs env prefix] (random_choice env)
                 [bucket_blob] (VListing prefix delimiter) w (VNames [])
                 (ext w ++ [ListBlobs prefix delimiter]) index_error
                 (ext w ++ [ListBlobs prefix delimiter]) [] C eq_refl eq_refl).
  cbn [app] in E. rewrite E. split; reflexivity.
Qed.

(** The listing answered and some name is left. *)
Lemma random_blob_chooses env prefix delimiter (w : Wd) :
  respond env (ext w) (ListBlobs prefix delimiter) = None ->
  distinct_names prefix (list_blobs env prefix delimiter) <> [] ->
  let names := distinct_names prefix (list_blobs env prefix delimiter) in
  fst (random_blob env prefix delimiter w)
  = Ok (VBlob (nth (draw env mod length names) names ""))
  /\ ext (snd (random_blob env prefix delimiter w))
     = ext w ++ [ListBlobs prefix delimiter].
Proof.
  intros H Hne names. unfold random_blob.
  rewrite (safe_pipe_succeeds
             [names_of_blobs env prefix; random_choice env; bucket_blob]
             (VListing prefix delimiter) w
             (VBlob (nth (draw env mod length names) names ""))
             (ext w ++ [ListBlobs prefix delimiter]));
    [split; reflexivity|].
  cbn [compose]. rewrite (names_of_blobs_returns _ _ _ _ _ H).
  fold names. destruct names as [|n ns] eqn:E; [contradiction|].
  reflexivity.
Qed.

Lemma chosen_In (k : nat) (names : list string) :
  names <> [] -> In (nth (k mod length names) names "") names.
Proof.
  intros H. apply nth_In. apply Nat.mod_upper_bound.
  destruct names; [contradiction | discriminate].
Qed.

Lemma distinct_names_nil (prefix : option string) (listing : list string) :
  (forall name, In name listing -> Some name = prefix) ->
  distinct_names prefix listing = [].
Proof.
  intros H. destruct (distinct_names prefix listing) as [|n ns] eqn:E;
    [reflexivity|].
  assert (Hn : In n (distinct_names prefix listing)) by (rewrite E; left; reflexivity).
  apply distinct_names_In in Hn. destruct Hn as [Hin Hne].
  contradiction (Hne (H n Hin)).
Qed.

Lemma distinct_names_cons (prefix : option string) (listing : list string)
    (name : string) :
  In name listing -> Some name <> prefix -> distinct_names prefix listing <> [].
Proof.
  intros Hin Hne E.
  assert (Hn : In name (distinct_names prefix listing))
    by (apply distinct_names_In; split; assumption).
  rewrite E in Hn. exact Hn.
Qed.

Lemma random_blob_returns_listed env prefix delimiter (w : Wd) v :
  fst (random_blob env prefix delimiter w) = Ok v ->
  exists name,
    v = VBlob name
    /\ In name (list_blobs env prefix delimiter)
    /\ Some name <> prefix.
Proof.
  intros H.
  destruct (respond env (ext w) (ListBlobs prefix delimiter)) as [e|] eqn:R.
  - rewrite (proj1 (random_blob_listing_fails _ _ _ _ _ R)) in H. discriminate H.
  - destruct (distinct_names prefix (list_blobs env prefix delimiter))
      as [|n ns] eqn:E.
    + rewrite (proj1 (random_blob_nothing_to_choose _ _ _ _ R E)) in H.
      discriminate H.
    + assert (Hne : distinct_names prefix (list_blobs env prefix delimiter) <> [])
        by (rewrite E; discriminate).
      rewrite (proj1 (random_blob_chooses _ _ _ _ R Hne)) in H.
      injection H as <-. eexists. split; [reflexivity|].
      apply distinct_names_In, chosen_In, Hne.
Qed.

(** C8: a handle returned by [random_blob] names one of the objects listed
    under the prefix and never the prefix itself; when the listing answers
    and some such name exists a handle is returned; when the listing answers
    and no name other than the prefix is listed, the choice raises
    [IndexError] (nothing to choose from), which reaches the caller as the
    aborted [HttpsError] of the step [Random.choice].  Over the store
    [{"audio/", "audio/a.ogg", "audio/b.ogg"}] with prefix "audio/" the
    handle is "audio/a.ogg" or "audio/b.ogg", whatever the draw; over the
    store [{"audio/"}] the selection fails. *)
Theorem random_blob_picks_a_listed_name :
  (forall env prefix delimiter (w : Wd) v,
     fst (random_blob env prefix delimiter w) = Ok v ->
     exists name,
       v = VBlob name
       /\ In name (list_blobs env prefix delimiter)
       /\ Some name <> prefix)
  /\ (forall env prefix delimiter (w : Wd) candidate,
        respond env (ext w) (ListBlobs prefix delimiter) = None ->
        In candidate (list_blobs env prefix delimiter) ->
        Some candidate <> prefix ->
        exists name, fst (random_blob env prefix delimiter w) = Ok (VBlob name))
  /\ (forall env prefix delimiter (w : Wd),
        respond env (ext w) (ListBlobs prefix delimiter) = None ->
        (forall name, In name (list_blobs env prefix delimiter) ->
                      Some name = prefix) ->
        fst (random_blob env prefix delimiter w)
        = Raise (HttpsError ABORTED
                   "error in Random.choice: Cannot choose from an empty sequence"
                   (Some index_error)))
  /\ (forall env (w : Wd),
        objects env = ["audio/"; "audio/a.ogg"; "audio/b.ogg"] ->
        respond env (ext w) (ListBlobs (Some "audio/") None) = None ->
        fst (random_blob env (Some "audio/") None w) = Ok (VBlob "audio/a.ogg")
        \/ fst (random_blob env (Some "audio/") None w) = Ok (VBlob "audio/b.ogg"))
  /\ (forall env (w : Wd),
        objects env = ["audio/"] ->
        respond env (ext w) (ListBlobs (Some "audio/") None) = None ->
        fst (random_blob env (Some "audio/") None w)
        = Raise (HttpsError ABORTED
                   "error in Random.choice: Cannot choose from an empty sequence"
                   (Some index_error))).
Proof.
  split; [exact random_blob_returns_listed|].
  split; [|split; [|split]].
  - intros env prefix delimiter w candidate R Hin Hne.
    eexists.
    apply (random_blob_chooses _ _ _ _ R (distinct_names_cons _ _ _ Hin Hne)).
  - intros env prefix delimiter w R Hall.
    apply (random_blob_nothing_to_choose _ _ _ _ R (distinct_names_nil _ _ Hall)).
  - intros env w Hobj R.
    assert (L : list_blobs env (Some "audio/") None
                = ["audio/"; "audio/a.ogg"; "audio/b.ogg"])
      by (unfold list_blobs; rewrite Hobj; reflexivity).
    assert (Hne : distinct_names (Some "audio/") (list_blobs env (Some "audio/") None)
                  <> []).
    { apply (distinct_names_cons _ _ "audio/a.ogg").
      - rewrite L. right; left; reflexivity.
      - discriminate. }
    destruct (random_blob_chooses _ _ _ _ R Hne) as [E _].
    destruct (random_blob_returns_listed _ _ _ _ _ E) as (name & Hv & Hin & Hp).
    rewrite E, Hv. rewrite L in Hin.
    destruct Hin as [<-|[<-|[<-|[]]]].
    + contradiction Hp; reflexivity.
    + left; reflexivity.
    + right; reflexivity.
  - intros env w Hobj R.
    apply (random_blob_nothing_to_choose _ _ _ _ R).
    apply distinct_names_nil. intros name Hin.
    unfold list_blobs in Hin. rewrite Hobj in Hin.
    destruct Hin as [<-|[]]. reflexivity.
Qed.

Lemma random_blob_picks_a_listed_name_witness :
  objects (sample_env audio_store all_fine None)
  = ["audio/"; "audio/a.ogg"; "audio/b.ogg"]
  /\ respond (sample_env audio_store all_fine None) (ext fresh)
       (ListBlobs (Some "audio/") None) = None
  /\ (fst (random_blob (sample_env audio_store all_fine None) (Some "audio/")
             None fresh) = Ok (VBlob "audio/a.ogg")
      \/ fst (random_blob (sample_env audio_store all_fine None) (Some "audio/")
                None fresh) = Ok (VBlob "audio/b.ogg")).
Proof.
  split; [reflexivity|]. split; [reflexivity|].
  apply (proj1 (proj2 (proj2 (proj2 random_blob_picks_a_listed_name)))
           (sample_env audio_store all_fine None) fresh);
    reflexivity.
Defined.

(** ** Handlers *)

Ltac step_raises :=
  let H := fresh "H" in
  intros ? ? ? ? ? H; cbn in H;
  repeat match type of H with
         | context [match ?t with _ => _ end] => destruct t
         end;
  inversion H; subst; reflexivity.

Lemma names_of_blobs_safe env prefix :
  raises_only_Exceptions (names_of_blobs env prefix).
Proof. step_raises. Qed.

Lemma random_choice_safe env : raises_only_Exceptions (random_choice env).
Proof. step_raises. Qed.

Lemma bucket_blob_safe : raises_only_Exceptions bucket_blob.
Proof. step_raises. Qed.

Lemma download_as_bytes_safe env owner :
  raises_only_Exceptions (download_as_bytes env owner).
Proof. step_raises. Qed.

Lemma reply_with_safe owner send : raises_only_Exceptions (reply_with owner send).
Proof. step_raises. Qed.

Lemma call_raises_Exceptions env c : raises_Exceptions (call env c).
Proof.
  intros w r w' H. unfold call, perform in H.
  destruct (respond env (ext w) c); inversion H; reflexivity.
Qed.

Lemma await_raises_Exceptions env v : raises_Exceptions (await env v).
Proof.
  destruct v; cbn [await]; try apply call_raises_Exceptions;
    intros ? ? ? H; inversion H; reflexivity.
Qed.

Lemma random_blob_raises_Exceptions env prefix delimiter :
  raises_Exceptions (random_blob env prefix delimiter).
Proof.
  apply safe_pipe_raises_Exceptions.
  repeat constructor;
    [apply names_of_blobs_safe | apply random_choice_safe | apply bucket_blob_safe].
Qed.

Lemma fetch_and_send_raises_Exceptions env owner prefix delimiter send :
  raises_Exceptions (fetch_and_send env owner prefix delimiter send).
Proof.
  apply bind_raises_Exceptions; [apply random_blob_raises_Exceptions|].
  intros blob. apply bind_raises_Exceptions; [|apply await_raises_Exceptions].
  apply safe_pipe_raises_Exceptions.
  repeat constructor; [apply download_as_bytes_safe | apply reply_with_safe].
Qed.

Lemma decorated_raises_Exceptions env action handler update :
  raises_Exceptions (handler update) ->
  raises_Exceptions (_send_chat_action env action handler update).
Proof.
  intros H. apply bind_raises_Exceptions; [apply call_raises_Exceptions|].
  intros _. exact H.
Qed.

(** Whatever a handler raises is an [Exception]. *)
Lemma run_callback_raises_Exceptions env cb update :
  raises_Exceptions (run_callback env cb update).
Proof.
  destruct cb; cbn [run_callback].
  - apply bind_raises_Exceptions; intros;
      apply decorated_raises_Exceptions;
      [apply fetch_and_send_raises_Exceptions | apply call_raises_Exceptions].
  - apply decorated_raises_Exceptions, call_raises_Exceptions.
  - apply decorated_raises_Exceptions, fetch_and_send_raises_Exceptions.
  - apply decorated_raises_Exceptions, fetch_and_send_raises_Exceptions.
  - apply decorated_raises_Exceptions.
    destruct (text update) as [t|].
    + destruct (press_x_to_honk_reply t);
        [apply call_raises_Exceptions | apply ret_raises_Exceptions].
    + intros w r w' H. inversion H. reflexivity.
  - apply decorated_raises_Exceptions, call_raises_Exceptions.
Qed.

Lemma call_ext env c (w : Wd) : ext (snd (call env c w)) = ext w ++ [c].
Proof.
  unfold call, perform. destruct (respond env (ext w) c); reflexivity.
Qed.

Lemma download_and_send_calls env owner send name (w : Wd) :
  ext (snd (bind (safe_pipe (VBlob name)
                    [download_as_bytes env owner; reply_with owner send])
                 (await env) w))
  = ext w ++ Download name ::
      match respond env (ext w) (Download name) with
      | Some _ => []
      | None => [send (content env name)]
      end.
Proof.
  destruct (respond env (ext w) (Download name)) as [e|] eqn:R.
  - assert (B : body (download_as_bytes env owner) (VBlob name) (ext w)
                = (Raises (as_exc e), ext w ++ [Download name], []))
      by (cbn [body download_as_bytes]; unfold perform; rewrite R; reflexivity).
    assert (E := safe_pipe_fails [] (download_as_bytes env owner)
                   [reply_with owner send] (VBlob name) w (VBlob name) (ext w)
                   (as_exc e) (ext w ++ [Download name]) [] eq_refl B eq_refl).
    cbn [app] in E. unfold bind. rewrite E. reflexivity.
  - assert (C : compose [download_as_bytes env owner; reply_with owner send]
                  (VBlob name) (ext w)
                = (Returns (VCoroutine (send (content env name))),
                   ext w ++ [Download name])).
    { cbn [compose body download_as_bytes]. unfold perform. rewrite R.
      reflexivity. }
    unfold bind. rewrite (safe_pipe_succeeds _ _ _ _ _ C).
    cbn [await]. rewrite call_ext. cbn [ext].
    rewrite <- app_assoc. reflexivity.
Qed.

Lemma fetch_and_send_calls env owner prefix delimiter send (w : Wd) :
  ext (snd (fetch_and_send env owner prefix delimiter send w))
  = ext w ++ fetch_calls env prefix delimiter send (ext w).
Proof.
  unfold fetch_and_send, fetch_calls.
  destruct (respond env (ext w) (ListBlobs prefix delimiter)) as [e|] eqn:R.
  - destruct (random_blob_listing_fails _ _ _ _ _ R) as [F X].
    unfold bind at 1.
    destruct (random_blob env prefix delimiter w) as [[v|r] w1];
      cbn [fst snd] in *; [discriminate F | exact X].
  - destruct (distinct_names prefix (list_blobs env prefix delimiter))
      as [|n ns] eqn:D.
    + destruct (random_blob_nothing_to_choose _ _ _ _ R D) as [F X].
      unfold bind at 1.
      destruct (random_blob env prefix delimiter w) as [[v|r] w1];
        cbn [fst snd] in *; [discriminate F | exact X].
    + assert (Hne : distinct_names prefix (list_blobs env prefix delimiter) <> [])
        by (rewrite D; discriminate).
      destruct (random_blob_chooses _ _ _ _ R Hne) as [F X].
      rewrite D in F.
      unfold bind at 1.
      destruct (random_blob env prefix delimiter w) as [[v|r] w1];
        cbn [fst snd] in *; [|discriminate F].
      injection F as ->.
      rewrite download_and_send_calls, X, <- app_assoc. reflexivity.
Qed.

(** *** Presence before reply *)

Lemma same_action_refl a : same_action a a = true.
Proof. destruct a; reflexivity. Qed.

Lemma announced_app (l1 l2 : Calls) :
  forall last,
    announced last l1 = true ->
    (forall last', announced last' l2 = true) ->
    announced last (l1 ++ l2) = true.
Proof.
  induction l1 as [|c l1 IH]; intros last H1 H2; [apply H2|].
  destruct c; cbn [app announced announced_by] in *;
    try (apply IH; assumption);
    destruct last as [b|]; try discriminate H1;
    apply andb_true_iff in H1; destruct H1 as [Ha Hl];
    rewrite Ha; cbn [andb]; apply IH; assumption.
Qed.

Lemma decorated_run env action handler update (w : Wd) :
  _send_chat_action env action handler update w
  = match respond env (ext w) (SendChatAction (chatId update) action) with
    | Some e =>
        (Raise (Propagated (as_exc e)),
         {| ext := ext w ++ [SendChatAction (chatId update) action];
            trace := trace w |})
    | None =>
        handler update
          {| ext := ext w ++ [SendChatAction (chatId update) action];
             trace := trace w |}
    end.
Proof.
  unfold _send_chat_action, bind, call, perform.
  destruct (respond env (ext w) _); reflexivity.
Qed.

(** What the decorator guarantees of any handler it wraps. *)
Lemma decorated_spec env action handler update (w : Wd) :
  announces (handler update) (Some action) ->
  exists rest,
    ext (snd (_send_chat_action env action handler update w))
    = ext w ++ SendChatAction (chatId update) action :: rest
    /\ (forall last,
          announced last (SendChatAction (chatId update) action :: rest) = true)
    /\ match respond env (ext w) (SendChatAction (chatId update) action) with
       | Some e =>
           rest = []
           /\ fst (_send_chat_action env action handler update w)
              = Raise (Propagated (as_exc e))
       | None => True
       end.
Proof.
  intros H. rewrite decorated_run.
  destruct (respond env (ext w) _) as [e|].
  - exists []. repeat split.
  - destruct (H {| ext := ext w ++ [SendChatAction (chatId update) action];
                   trace := trace w |}) as (new & E & A).
    exists new. cbn [ext] in E. rewrite E, <- app_assoc.
    repeat split. intros last. exact A.
Qed.

Lemma call_announces env c a :
  announced_by c = Some a -> announces (call env c) (Some a).
Proof.
  intros H w. exists [c]. rewrite call_ext. split; [reflexivity|].
  destruct c; cbn [announced_by] in H; try discriminate H;
    injection H as <-; reflexivity.
Qed.

Lemma fetch_and_send_announces env owner prefix delimiter send a :
  (forall b, announced_by (send b) = Some a) ->
  announces (fetch_and_send env owner prefix delimiter send) (Some a).
Proof.
  intros H w. exists (fetch_calls env prefix delimiter send (ext w)).
  split; [apply fetch_and_send_calls|].
  unfold fetch_calls. cbn [announced announced_by].
  destruct (respond env (ext w) _); [reflexivity|].
  destruct (distinct_names prefix _) as [|n ns]; [reflexivity|].
  cbn [announced announced_by].
  destruct (respond env _ _); [reflexivity|].
  set (c := send _).
  assert (Hc : announced_by c = Some a) by apply H.
  destruct c; cbn [announced_by] in Hc; try discriminate Hc;
    injection Hc as <-; reflexivity.
Qed.

Lemma press_x_announces env update :
  announces
    (match text update with
     | None => raise (Propagated attribute_error)
     | Some t =>
         match press_x_to_honk_reply t with
         | Some reply => call env (ReplyText (chatId update) reply)
         | None => ret tt
         end
     end) (Some TYPING).
Proof.
  destruct (text update) as [t|].
  - destruct (press_x_to_honk_reply t).
    + apply call_announces. reflexivity.
    + intros w. exists []. split; [symmetry; apply app_nil_r | reflexivity].
  - intros w. exists []. split; [symmetry; apply app_nil_r | reflexivity].
Qed.

Lemma send_gif_presence env update (w : Wd) :
  exists rest,
    ext (snd (send_gif env update w))
    = ext w ++ SendChatAction (chatId update) UPLOAD_PHOTO :: rest
    /\ (forall last,
          announced last (SendChatAction (chatId update) UPLOAD_PHOTO :: rest)
          = true)
    /\ match respond env (ext w) (SendChatAction (chatId update) UPLOAD_PHOTO) with
       | Some e =>
           rest = []
           /\ fst (send_gif env update w) = Raise (Propagated (as_exc e))
       | None => True
       end.
Proof.
  apply (decorated_spec env UPLOAD_PHOTO
           (fun update =>
              fetch_and_send env "send_gif" (Some "media/hello/") (Some "/")
                (fun file => ReplyDocument (chatId update) file "hello.gif"))).
  apply fetch_and_send_announces. reflexivity.
Qed.

Lemma greet_presence env update (w : Wd) :
  exists rest,
    ext (snd (greet env update w))
    = ext w ++ SendChatAction (chatId update) TYPING :: rest
    /\ (forall last,
          announced last (SendChatAction (chatId update) TYPING :: rest) = true).
Proof.
  destruct (decorated_spec env TYPING
              (fun update => call env (ReplyMarkdown (chatId update) greeting))
              update w
              (call_announces env (ReplyMarkdown (chatId update) greeting) TYPING
                 eq_refl))
    as (rest & E & A & _).
  exists rest. split; assumption.
Qed.

(** C9, as the code has it: the first call a handler makes is the presence
    of its reply type; in the calls it makes, every reply comes after a
    presence of its own kind; and when the emission of that first presence
    fails, the handler raises that failure and makes no other call: the
    reply is not attempted. *)
Theorem presence_first_and_its_failure_aborts env cb update (w : Wd) :
  exists rest,
    ext (snd (run_callback env cb update w))
    = ext w ++ SendChatAction (chatId update) (first_presence cb) :: rest
    /\ (forall last,
          announced last
            (SendChatAction (chatId update) (first_presence cb) :: rest) = true)
    /\ match respond env (ext w)
               (SendChatAction (chatId update) (first_presence cb)) with
       | Some e =>
           rest = []
           /\ fst (run_callback env cb update w) = Raise (Propagated (as_exc e))
       | None => True
       end.
Proof.
  destruct cb; cbn [run_callback first_presence];
    try (apply decorated_spec;
         first [ apply call_announces; reflexivity
               | apply fetch_and_send_announces; reflexivity
               | apply press_x_announces ]).
  - unfold start, bind.
    destruct (send_gif_presence env update w) as (rest1 & E1 & A1 & F1).
    destruct (send_gif env update w) as [[[]|r] w1] eqn:G; cbn [fst snd] in *.
    + destruct (greet_presence env update w1) as (rest2 & E2 & A2).
      exists (rest1 ++ SendChatAction (chatId update) TYPING :: rest2).
      split; [|split].
      * rewrite E2, E1, <- app_assoc. reflexivity.
      * intros last.
        apply (announced_app (_ :: rest1) (_ :: rest2) last (A1 last) A2).
      * destruct (respond env (ext w) _); [|exact I].
        destruct F1 as [_ F1]. discriminate F1.
    + exists rest1. repeat split; [exact E1 | exact A1 |].
      destruct (respond env (ext w) _); [|exact I]. exact F1.
Qed.

(** C9, as stated, fails: when the presence cannot be sent, [help_] raises
    and the help text is never sent. *)
Lemma presence_failure_aborts_help :
  respond (sample_env audio_store presence_fails (Some help_command)) []
    (SendChatAction 7 TYPING) = Some network_error
  /\ help_ (sample_env audio_store presence_fails (Some help_command))
       help_command fresh
     = (Raise (Propagated (as_exc network_error)),
        {| ext := [SendChatAction 7 TYPING]; trace := [] |})
  /\ ~ In (ReplyMarkdown 7 help_text)
         (ext (snd (help_ (sample_env audio_store presence_fails
                             (Some help_command)) help_command fresh))).
Proof.
  split; [reflexivity|]. split; [reflexivity|].
  cbn. intros [H|[]]. discriminate H.
Qed.

(** ** Command router *)


(** Dispatch never raises: it drops, runs a handler, or falls back. *)
Lemma process_update_returns env app update (w : Wd) :
  fst (process_update env app update w) = Returns tt.
Proof.
  unfold process_update. destruct update as [u|]; [|reflexivity].
  destruct (select app u) as [cb|]; [|reflexivity].
  destruct (run_callback env cb u w) as [[[]|r] w1] eqn:Hr; [reflexivity|].
  assert (E := run_callback_raises_Exceptions env cb u w r w1 Hr).
  destruct r as [e|]; [|reflexivity].
  cbn [raised_is_Exception] in E. rewrite E. reflexivity.
Qed.


(** [_handle_update_with_app] when the application starts and stops. *)
Lemma handle_update_returns env self update history :
  respond env history Initialize = None ->
  (forall h, respond env h Shutdown = None) ->
  body (_handle_update_with_app env self) (VUpdate update) history
  = (Returns (VResponse (Response_ "ok")),
     ext (snd (process_update env (telegram_app self) update
                 {| ext := history ++ [Initialize]; trace := [] |}))
       ++ [Shutdown],
     trace (snd (process_update env (telegram_app self) update
                   {| ext := history ++ [Initialize]; trace := [] |}))).
Proof.
  intros Hi Hs. cbn [body _handle_update_with_app]. unfold perform.
  rewrite Hi.
  assert (R := process_update_returns env (telegram_app self) update
                 {| ext := history ++ [Initialize]; trace := [] |}).
  destruct (process_update env (telegram_app self) update _) as [[[]|e] w1];
    cbn [fst snd] in *; [|discriminate R].
  rewrite Hs. reflexivity.
Qed.




(** *** Voice notes and [/honk] *)

Lemma select_voice env update :
  kind update = VOICE -> select (the_application env) update = Some cb_honk.
Proof.
  intros H. unfold select, the_application, registered_handlers.
  cbn [handlers app List.find check_update matches]. rewrite H. reflexivity.
Qed.

Lemma select_honk_command env chat :
  select (the_application env) (honk_command chat) = Some cb_honk.
Proof. reflexivity. Qed.

Lemma honk_same_chat env u1 u2 : chatId u1 = chatId u2 -> honk env u1 = honk env u2.
Proof. intros H. unfold honk, _send_chat_action. rewrite H. reflexivity. Qed.

Lemma oops_same_chat env u1 u2 : chatId u1 = chatId u2 -> oops env u1 = oops env u2.
Proof. intros H. unfold oops, _send_chat_action. rewrite H. reflexivity. Qed.

Lemma honk_calls env update (w : Wd) :
  ext (snd (honk env update w))
  = ext w ++ SendChatAction (chatId update) RECORD_VOICE ::
      match respond env (ext w) (SendChatAction (chatId update) RECORD_VOICE) with
      | Some _ => []
      | None =>
          fetch_calls env (Some "audio/") None
            (fun file => ReplyVoice (chatId update) file 1)
            (ext w ++ [SendChatAction (chatId update) RECORD_VOICE])
      end.
Proof.
  unfold honk. rewrite decorated_run.
  destruct (respond env (ext w) _); [reflexivity|].
  change (ext (snd (fetch_and_send env "honk" (Some "audio/") None
                      (fun file => ReplyVoice (chatId update) file 1)
                      {| ext := ext w ++ [SendChatAction (chatId update) RECORD_VOICE];
                         trace := trace w |}))
          = ext w ++ SendChatAction (chatId update) RECORD_VOICE ::
              fetch_calls env (Some "audio/") None
                (fun file => ReplyVoice (chatId update) file 1)
                (ext w ++ [SendChatAction (chatId update) RECORD_VOICE])).
  rewrite fetch_and_send_calls. cbn [ext]. rewrite <- app_assoc. reflexivity.
Qed.

Lemma listed_under_prefix env p delimiter name :
  In name (list_blobs env (Some p) delimiter) -> String.prefix p name = true.
Proof.
  unfold list_blobs. rewrite filter_In. intros [_ H].
  unfold under in H. apply andb_true_iff in H. exact (proj1 H).
Qed.

(** With every service answering and something to choose from, the blob is
    chosen, downloaded and sent. *)
Lemma fetch_and_send_succeeds env owner prefix delimiter send (w : Wd) :
  (forall h c, respond env h c = None) ->
  distinct_names prefix (list_blobs env prefix delimiter) <> [] ->
  let names := distinct_names prefix (list_blobs env prefix delimiter) in
  let name := nth (draw env mod length names) names "" in
  fst (fetch_and_send env owner prefix delimiter send w) = Ok tt
  /\ ext (snd (fetch_and_send env owner prefix delimiter send w))
     = ext w ++ [ListBlobs prefix delimiter; Download name;
                 send (content env name)].
Proof.
  intros Hall Hne names name.
  split.
  - unfold fetch_and_send.
    destruct (random_blob_chooses _ _ _ w (Hall _ _) Hne) as [F _].
    fold names in F. fold name in F.
    unfold bind at 1.
    destruct (random_blob env prefix delimiter w) as [[v|r] w1];
      cbn [fst] in F; [|discriminate F].
    injection F as ->.
    assert (C : compose [download_as_bytes env owner; reply_with owner send]
                  (VBlob name) (ext w1)
                = (Returns (VCoroutine (send (content env name))),
                   ext w1 ++ [Download name])).
    { cbn [compose body download_as_bytes]. unfold perform. rewrite Hall.
      reflexivity. }
    unfold bind. rewrite (safe_pipe_succeeds _ _ _ _ _ C).
    cbn [await]. unfold call, perform. cbn [ext]. rewrite Hall. reflexivity.
  - rewrite fetch_and_send_calls. unfold fetch_calls.
    rewrite Hall. fold names.
    destruct names as [|n ns] eqn:E; [contradiction|].
    rewrite Hall. reflexivity.
Qed.

Lemma every_candidate_can_be_drawn (names : list string) (candidate : string) :
  In candidate names ->
  exists k, nth (k mod length names) names "" = candidate.
Proof.
  intros H. destruct (In_nth names candidate "" H) as (k & Hk & E).
  exists k. rewrite Nat.mod_small by exact Hk. exact E.
Qed.

(** ** Entry point *)

Lemma application_is_built env (w : Wd) :
  build env (BOT_TOKEN env) = None ->
  safe_pipe (VStr (BOT_TOKEN env)) [_build_application env; _register_handlers] w
  = (Ok (VApplication (the_application env)),
     {| ext := ext w; trace := trace w ++ construction_log env |}).
Proof.
  intros H.
  assert (C : compose [_build_application env; _register_handlers]
                (VStr (BOT_TOKEN env)) (ext w)
              = (Returns (VApplication (the_application env)), ext w))
    by (cbn; rewrite H; reflexivity).
  rewrite (safe_pipe_succeeds _ _ _ _ _ C).
  cbn. rewrite H. reflexivity.
Qed.

Lemma application_is_refused env (w : Wd) e :
  build env (BOT_TOKEN env) = Some e ->
  safe_pipe (VStr (BOT_TOKEN env)) [_build_application env; _register_handlers] w
  = (Raise (HttpsError ABORTED
              ("error in AppBuilder._build_application: " +:+ lib_str e)
              (Some (as_exc e))),
     {| ext := ext w;
        trace := trace w
                   ++ [ATTEMPT "AppBuilder._build_application";
                       Invoked "AppBuilder._build_application"
                         (VStr (BOT_TOKEN env)) [];
                       FAILURE "AppBuilder._build_application"
                         (VStr (BOT_TOKEN env)) (as_exc e)] |}).
Proof.
  intros H.
  assert (B : body (_build_application env) (VStr (BOT_TOKEN env)) (ext w)
              = (Raises (as_exc e), ext w, []))
    by (cbn; rewrite H; reflexivity).
  assert (E := safe_pipe_fails [] (_build_application env) [_register_handlers]
                 (VStr (BOT_TOKEN env)) w (VStr (BOT_TOKEN env)) (ext w)
                 (as_exc e) (ext w) [] eq_refl B eq_refl).
  cbn [app] in E. rewrite E. reflexivity.
Qed.

(** The only application the construction pipeline ever returns. *)
Lemma built_application env (w : Wd) v (w' : Wd) :
  safe_pipe (VStr (BOT_TOKEN env)) [_build_application env; _register_handlers] w
  = (Ok v, w') ->
  v = VApplication (the_application env).
Proof.
  intros H. destruct (build env (BOT_TOKEN env)) as [e|] eqn:B.
  - rewrite (application_is_refused env w e B) in H. discriminate H.
  - rewrite (application_is_built env w B) in H. injection H as <- _.
    reflexivity.
Qed.

(** What [handle_request] does once the application is built. *)
Lemma handle_request_built env request (w : Wd) :
  build env (BOT_TOKEN env) = None ->
  handle_request env request w
  = (if String.eqb (method request) "GET" then
       safe_pipe (VStr (ENDPOINT env))
         [_set_bot_webhook env {| telegram_app := the_application env |}]
     else if String.eqb (method request) "POST" then
       safe_pipe (VRequest request)
         [_extract_json_from_request env {| telegram_app := the_application env |};
          _convert_json_to_update env {| telegram_app := the_application env |};
          _handle_update_with_app env {| telegram_app := the_application env |}]
     else
       raise (HttpsError UNIMPLEMENTED (method request +:+ " not supported") None))
      {| ext := ext w; trace := trace w ++ construction_log env |}.
Proof.
  intros H. unfold handle_request, bind.
  rewrite (application_is_built env w H). reflexivity.
Qed.

Lemma handle_request_refused env request (w : Wd) e :
  build env (BOT_TOKEN env) = Some e ->
  fst (handle_request env request w)
  = Raise (HttpsError ABORTED
             ("error in AppBuilder._build_application: " +:+ lib_str e)
             (Some (as_exc e)))
  /\ ext (snd (handle_request env request w)) = ext w.
Proof.
  intros H. unfold handle_request, bind.
  rewrite (application_is_refused env w e H). split; reflexivity.
Qed.

(** C5, as the code has it: for a verb that is neither GET nor POST the
    dispatcher makes no gateway or store call; it first runs the pipeline
    that builds the application, which logs ATTEMPT and SUCCESS for its two
    steps; when the application is built it then raises UNIMPLEMENTED with
    the message "<method> not supported", without running any other
    pipeline; when the library refuses the token the error is the ABORTED
    one of the build step. *)
Theorem other_verbs_are_unimplemented env request (w : Wd) :
  method request <> "GET" ->
  method request <> "POST" ->
  ext (snd (handle_request env request w)) = ext w
  /\ match build env (BOT_TOKEN env) with
     | None =>
         handle_request env request w
         = (Raise (HttpsError UNIMPLEMENTED
                     (method request +:+ " not supported") None),
            {| ext := ext w; trace := trace w ++ construction_log env |})
     | Some e =>
         fst (handle_request env request w)
         = Raise (HttpsError ABORTED
                    ("error in AppBuilder._build_application: " +:+ lib_str e)
                    (Some (as_exc e)))
     end.
Proof.
  intros Hg Hp.
  apply String.eqb_neq in Hg, Hp.
  destruct (build env (BOT_TOKEN env)) as [e|] eqn:B.
  - destruct (handle_request_refused env request w e B) as [F X].
    split; assumption.
  - rewrite (handle_request_built env request w B), Hg, Hp. split; reflexivity.
Qed.

Lemma other_verbs_are_unimplemented_witness :
  method put_request <> "GET"
  /\ method put_request <> "POST"
  /\ handle_request (sample_env audio_store all_fine None) put_request fresh
     = (Raise (HttpsError UNIMPLEMENTED "PUT not supported" None),
        {| ext := [];
           trace := construction_log (sample_env audio_store all_fine None) |}).
Proof.
  split; [discriminate|]. split; [discriminate|].
  apply (other_verbs_are_unimplemented (sample_env audio_store all_fine None)
           put_request fresh); discriminate.
Defined.

(** C5, as stated, fails: a PUT runs the pipeline that builds the
    application, whose two steps are called and logged; and when the
    library refuses the token the error is ABORTED, not UNIMPLEMENTED. *)
Lemma put_runs_the_construction_pipeline :
  trace (snd (handle_request (sample_env audio_store all_fine None)
                put_request fresh))
  <> trace fresh
  /\ invocations (trace (snd (handle_request (sample_env audio_store all_fine None)
                               put_request fresh)))
     = ["AppBuilder._build_application"; "AppBuilder._register_handlers"]
  /\ length (List.filter is_attempt
               (trace (snd (handle_request (sample_env audio_store all_fine None)
                              put_request fresh)))) = 2
  /\ fst (handle_request (with_bad_token (sample_env audio_store all_fine None))
            put_request fresh)
     = Raise (HttpsError ABORTED
                "error in AppBuilder._build_application: invalid token"
                (Some (as_exc invalid_token))).
Proof. split; [discriminate|]. repeat split. Qed.

(** C7, as the code has it: for a GET, once the application is built, the
    dispatcher registers the URL of the [ENDPOINT] configuration parameter,
    whatever the request carries: [set_webhook] is called once, with that
    URL; when the call succeeds the response is 200 "Set webhook", when it
    fails the dispatcher raises the ABORTED error of the step
    [RequestHandler._set_bot_webhook] with the cause in its message. *)
Theorem get_registers_the_configured_endpoint env request (w : Wd) :
  method request = "GET" ->
  build env (BOT_TOKEN env) = None ->
  ext (snd (handle_request env request w)) = ext w ++ [SetWebhook (ENDPOINT env)]
  /\ fst (handle_request env request w)
     = match respond env (ext w) (SetWebhook (ENDPOINT env)) with
       | None =>
           Ok (VResponse {| status := 200; response_body := "Set webhook" |})
       | Some e =>
           Raise (HttpsError ABORTED
                    ("error in RequestHandler._set_bot_webhook: " +:+ lib_str e)
                    (Some (as_exc e)))
       end.
Proof.
  intros Hm B.
  rewrite (handle_request_built env request w B), Hm.
  cbn [String.eqb Ascii.eqb Bool.eqb].
  set (w1 := {| ext := ext w; trace := trace w ++ construction_log env |}).
  set (handler := {| telegram_app := the_application env |}).
  destruct (respond env (ext w) (SetWebhook (ENDPOINT env))) as [e|] eqn:R.
  - assert (Bd : body (_set_bot_webhook env handler) (VStr (ENDPOINT env)) (ext w1)
                 = (Raises (as_exc e), ext w ++ [SetWebhook (ENDPOINT env)], []))
      by (cbn [body _set_bot_webhook]; unfold perform; cbn [ext w1];
          rewrite R; reflexivity).
    assert (E := safe_pipe_fails [] (_set_bot_webhook env handler) []
                   (VStr (ENDPOINT env)) w1 (VStr (ENDPOINT env)) (ext w1)
                   (as_exc e) (ext w ++ [SetWebhook (ENDPOINT env)]) []
                   eq_refl Bd eq_refl).
    cbn [app] in E. rewrite E. split; reflexivity.
  - assert (C : compose [_set_bot_webhook env handler] (VStr (ENDPOINT env))
                  (ext w1)
                = (Returns (VResponse (Response_ "Set webhook")),
                   ext w ++ [SetWebhook (ENDPOINT env)]))
      by (cbn [compose body _set_bot_webhook]; unfold perform; cbn [ext w1];
          rewrite R; reflexivity).
    rewrite (safe_pipe_succeeds _ _ _ _ _ C). split; reflexivity.
Qed.

Lemma get_registers_the_configured_endpoint_witness :
  method get_request = "GET"
  /\ build (sample_env audio_store all_fine None)
       (BOT_TOKEN (sample_env audio_store all_fine None)) = None
  /\ ext (snd (handle_request (sample_env audio_store all_fine None)
                 get_request fresh))
     = ext fresh ++ [SetWebhook "https://bot.example/hook"]
  /\ fst (handle_request (sample_env audio_store all_fine None) get_request fresh)
     = Ok (VResponse {| status := 200; response_body := "Set webhook" |}).
Proof.
  split; [reflexivity|]. split; [reflexivity|].
  apply (get_registers_the_configured_endpoint
           (sample_env audio_store all_fine None) get_request fresh);
    reflexivity.
Defined.

(** C7, as stated, fails: the URL registered is not taken from the request.
    A GET that carries "https://elsewhere.example/hook" in its query and
    body registers the configured endpoint; and no function of the request
    gives the URL registered, since the same request registers another URL
    under another configuration. *)
Lemma get_ignores_the_url_of_the_request :
  ext (snd (handle_request (sample_env audio_store all_fine None)
              get_request fresh))
  = [SetWebhook "https://bot.example/hook"]
  /\ ~ In (SetWebhook (data get_request))
         (ext (snd (handle_request (sample_env audio_store all_fine None)
                      get_request fresh)))
  /\ ~ (exists url_of : Request -> string,
          forall env request,
            method request = "GET" ->
            build env (BOT_TOKEN env) = None ->
            ext (snd (handle_request env request fresh))
            = [SetWebhook (url_of request)]).
Proof.
  split; [reflexivity|]. split.
  - cbn. intros [H|[]]. discriminate H.
  - intros (url_of & H).
    assert (H1 := H (sample_env audio_store all_fine None) get_request
                    eq_refl eq_refl).
    assert (H2 := H (with_endpoint "https://other.example/hook"
                       (sample_env audio_store all_fine None))
                    get_request eq_refl eq_refl).
    cbn in H1, H2. rewrite <- H1 in H2. discriminate H2.
Qed.

Lemma extract_returns env self request history j :
  get_json env request = inr j ->
  body (_extract_json_from_request env self) (VRequest request) history
  = (Returns (VJson j), history, []).
Proof. intros H. cbn [body _extract_json_from_request]. rewrite H. reflexivity. Qed.

Lemma extract_raises env self request history e :
  get_json env request = inl e ->
  body (_extract_json_from_request env self) (VRequest request) history
  = (Raises (as_exc e), history, []).
Proof. intros H. cbn [body _extract_json_from_request]. rewrite H. reflexivity. Qed.

Lemma convert_returns env self j history u :
  de_json env j = inr u ->
  body (_convert_json_to_update env self) (VJson j) history
  = (Returns (VUpdate u), history, []).
Proof. intros H. cbn [body _convert_json_to_update]. rewrite H. reflexivity. Qed.

Lemma convert_raises env self j history e :
  de_json env j = inl e ->
  body (_convert_json_to_update env self) (VJson j) history
  = (Raises (as_exc e), history, []).
Proof. intros H. cbn [body _convert_json_to_update]. rewrite H. reflexivity. Qed.

(** C4, as the code has it: for a POST, when the body is not valid JSON or
    the JSON cannot be decoded, the dispatcher raises an ABORTED
    [HttpsError] naming the step that failed, makes no gateway or store call
    and never calls [_handle_update_with_app]; (the same holds, with the
    build step named, when the library refuses the token;) when the body
    decodes, to an event or to nothing, and the application's [initialize]
    and [shutdown] succeed, the dispatcher returns 200 "ok" whatever
    dispatch does. *)
Theorem post_decodes_then_dispatches env request (w : Wd) :
  method request = "POST" ->
  match build env (BOT_TOKEN env) with
  | Some e =>
      fst (handle_request env request w)
      = Raise (HttpsError ABORTED
                 ("error in AppBuilder._build_application: " +:+ lib_str e)
                 (Some (as_exc e)))
      /\ ext (snd (handle_request env request w)) = ext w
  | None =>
      match get_json env request with
      | inl e =>
          handle_request env request w
          = (Raise (HttpsError ABORTED
                      ("error in RequestHandler._extract_json_from_request: "
                         +:+ lib_str e)
                      (Some (as_exc e))),
             {| ext := ext w;
                trace := trace w ++ construction_log env
                  ++ [ATTEMPT "RequestHandler._extract_json_from_request";
                      Invoked "RequestHandler._extract_json_from_request"
                        (VRequest request) [];
                      FAILURE "RequestHandler._extract_json_from_request"
                        (VRequest request) (as_exc e)] |})
      | inr j =>
          match de_json env j with
          | inl e =>
              handle_request env request w
              = (Raise (HttpsError ABORTED
                          ("error in RequestHandler._convert_json_to_update: "
                             +:+ lib_str e)
                          (Some (as_exc e))),
                 {| ext := ext w;
                    trace := trace w ++ construction_log env
                      ++ [ATTEMPT "RequestHandler._extract_json_from_request";
                          Invoked "RequestHandler._extract_json_from_request"
                            (VRequest request) [];
                          SUCCESS "RequestHandler._extract_json_from_request"
                            (VRequest request) (VJson j);
                          ATTEMPT "RequestHandler._convert_json_to_update";
                          Invoked "RequestHandler._convert_json_to_update"
                            (VJson j) [];
                          FAILURE "RequestHandler._convert_json_to_update"
                            (VJson j) (as_exc e)] |})
          | inr u =>
              (forall h, respond env h Initialize = None) ->
              (forall h, respond env h Shutdown = None) ->
              fst (handle_request env request w)
              = Ok (VResponse {| status := 200; response_body := "ok" |})
          end
      end
  end.
Proof.
  intros Hm.
  destruct (build env (BOT_TOKEN env)) as [e|] eqn:B;
    [exact (handle_request_refused env request w e B)|].
  rewrite (handle_request_built env request w B), Hm.
  cbn [String.eqb Ascii.eqb Bool.eqb].
  set (w1 := {| ext := ext w; trace := trace w ++ construction_log env |}).
  set (handler := {| telegram_app := the_application env |}).
  destruct (get_json env request) as [e|j] eqn:G.
  - assert (E := safe_pipe_fails [] (_extract_json_from_request env handler)
                   [_convert_json_to_update env handler;
                    _handle_update_with_app env handler]
                   (VRequest request) w1 (VRequest request) (ext w1) (as_exc e)
                   (ext w1) [] eq_refl
                   (extract_raises env handler request (ext w1) e G) eq_refl).
    cbn [app] in E. rewrite E. cbn [success_log app ext trace w1 qualname
      _extract_json_from_request as_exc exc_str].
    rewrite <- app_assoc. reflexivity.
  - assert (C1 : compose [_extract_json_from_request env handler]
                   (VRequest request) (ext w1)
                 = (Returns (VJson j), ext w1))
      by (cbn [compose]; rewrite (extract_returns env handler request _ j G);
          reflexivity).
    destruct (de_json env j) as [e|u] eqn:D.
    + assert (E := safe_pipe_fails [_extract_json_from_request env handler]
                     (_convert_json_to_update env handler)
                     [_handle_update_with_app env handler]
                     (VRequest request) w1 (VJson j) (ext w1) (as_exc e)
                     (ext w1) [] C1
                     (convert_raises env handler j (ext w1) e D) eq_refl).
      cbn [app] in E. rewrite E.
      cbn [success_log]. rewrite (extract_returns env handler request _ j G).
      cbn [app ext trace w1 qualname _extract_json_from_request
           _convert_json_to_update as_exc exc_str].
      rewrite <- app_assoc. reflexivity.
    + intros Hi Hs.
      assert (C : compose [_extract_json_from_request env handler;
                           _convert_json_to_update env handler;
                           _handle_update_with_app env handler]
                    (VRequest request) (ext w1)
                  = (Returns (VResponse (Response_ "ok")),
                     ext (snd (process_update env (the_application env) u
                                 {| ext := ext w1 ++ [Initialize]; trace := [] |}))
                       ++ [Shutdown])).
      { cbn [compose].
        rewrite (extract_returns env handler request _ j G).
        rewrite (convert_returns env handler j _ u D).
        rewrite (handle_update_returns env handler u (ext w1) (Hi _) Hs).
        reflexivity. }
      rewrite (safe_pipe_succeeds _ _ _ _ _ C). reflexivity.
Qed.

Lemma post_decodes_then_dispatches_witness :
  method post_request = "POST"
  /\ (forall h, respond (sample_env audio_store all_fine (Some voice_note)) h
                  Initialize = None)
  /\ (forall h, respond (sample_env audio_store all_fine (Some voice_note)) h
                  Shutdown = None)
  /\ fst (handle_request (sample_env audio_store all_fine (Some voice_note))
            post_request fresh)
     = Ok (VResponse {| status := 200; response_body := "ok" |}).
Proof.
  split; [reflexivity|]. split; [reflexivity|]. split; [reflexivity|].
  apply (post_decodes_then_dispatches
           (sample_env audio_store all_fine (Some voice_note)) post_request
           fresh eq_refl);
    reflexivity.
Defined.

(** C4, as stated, fails: the body is valid JSON and decodes to the command
    [/help], but the application cannot be initialized; the dispatcher
    raises ABORTED and does not answer "ok". *)
Lemma post_fails_when_initialize_fails :
  get_json (sample_env audio_store initialize_fails (Some help_command))
    post_request = inr (JString "{}")
  /\ de_json (sample_env audio_store initialize_fails (Some help_command))
       (JString "{}") = inr (Some help_command)
  /\ fst (handle_request
            (sample_env audio_store initialize_fails (Some help_command))
            post_request fresh)
     = Raise (HttpsError ABORTED
                "error in RequestHandler._handle_update_with_app: connection refused"
                (Some (as_exc network_error)))
  /\ fst (handle_request
            (sample_env audio_store initialize_fails (Some help_command))
            post_request fresh)
     <> Ok (VResponse {| status := 200; response_body := "ok" |}).
Proof. repeat split. discriminate. Qed.

(** A body that is not JSON: ABORTED, no call to any collaborator, and
    [_handle_update_with_app] is not among the steps called. *)
Example post_with_invalid_body_aborts :
  fst (handle_request
         (with_invalid_body (sample_env audio_store all_fine (Some voice_note)))
         post_request fresh)
  = Raise (HttpsError ABORTED
             "error in RequestHandler._extract_json_from_request: 400 Bad Request"
             (Some (as_exc bad_request)))
  /\ ext (snd (handle_request
                 (with_invalid_body
                    (sample_env audio_store all_fine (Some voice_note)))
                 post_request fresh)) = []
  /\ invocations
       (trace (snd (handle_request
                      (with_invalid_body
                         (sample_env audio_store all_fine (Some voice_note)))
                      post_request fresh)))
     = ["AppBuilder._build_application"; "AppBuilder._register_handlers";
        "RequestHandler._extract_json_from_request"].
Proof. repeat split. Qed.

(** An event no handler matches is dropped and the answer is still "ok". *)
Example post_with_unknown_command_is_dropped :
  select (the_application (sample_env audio_store all_fine (Some unknown_command)))
    unknown_command = None
  /\ fst (handle_request (sample_env audio_store all_fine (Some unknown_command))
            post_request fresh)
     = Ok (VResponse {| status := 200; response_body := "ok" |})
  /\ ext (snd (handle_request
                 (sample_env audio_store all_fine (Some unknown_command))
                 post_request fresh))
     = [Initialize; Shutdown].
Proof. repeat split. Qed.

(** * Further properties *)

(** ** The pipeline engine *)

(** X1: running the steps [pre ++ post] is running [pre], then [post] on
    what [pre] returned, from the world [pre] left; when [pre] raises,
    [post] is not run. *)
Theorem safe_pipe_app_bind {S V : Type} (pre post : list (Step S V)) (v : V)
    (w : World S V) :
  safe_pipe v (pre ++ post) w
  = bind (safe_pipe v pre) (fun y => safe_pipe y post) w.
Proof.
  revert v w. induction pre as [|st pre IH]; intros v w.
  - unfold bind. rewrite safe_pipe_nil. reflexivity.
  - rewrite <- app_comm_cons. unfold bind. rewrite !safe_pipe_cons.
    destruct (guarded_call (abort_on_error (add_logging st)) v w) as [[y|r] w1].
    + rewrite IH. reflexivity.
    + reflexivity.
Qed.

Lemma safe_pipe_raise_inv {S V : Type} (steps : list (Step S V)) :
  forall (v : V) (w : World S V) (r : Raised) (w' : World S V),
    safe_pipe v steps w = (Raise r, w') ->
    exists pre st post vk sk e s' inner,
      steps = pre ++ st :: post
      /\ compose pre v (ext w) = (Returns vk, sk)
      /\ body st vk sk = (Raises e, s', inner).
Proof.
  induction steps as [|st steps IH]; intros v w r w' H.
  - discriminate H.
  - rewrite safe_pipe_cons in H.
    destruct (body st v (ext w)) as [[[y|e] s1] inner] eqn:E.
    + rewrite (wrapped_returns _ _ _ _ _ _ E) in H.
      destruct (IH _ _ _ _ H)
        as (pre & st' & post & vk & sk & e & s' & inner' & Hs & Hc & Hb).
      exists (st :: pre), st', post, vk, sk, e, s', inner'.
      split; [rewrite Hs; reflexivity|].
      split; [cbn [compose]; rewrite E; exact Hc | exact Hb].
    + exists [], st, steps, v, (ext w), e, s1, inner.
      split; [reflexivity|]. split; [reflexivity | exact E].
Qed.

(** X2: when a pipeline raises, one of its steps raised: the steps before
    it returned, that step, called on what they returned, raised an
    exception [e], and no step after it was called: the world is the state
    that step left and the log of the steps before it followed by its
    ATTEMPT, its call and, for an [Exception], its FAILURE.  What the
    pipeline raises is the ABORTED [HttpsError] made for that step, with
    the message "error in <name>: <str of e>" and [e] as its cause, when
    [e] is an [Exception], and [e] itself when it is not. *)
Theorem safe_pipe_raises_translated {S V : Type} (steps : list (Step S V))
    (v : V) (w : World S V) (r : Raised) (w' : World S V) :
  safe_pipe v steps w = (Raise r, w') ->
  exists pre st post vk sk e s' inner,
    steps = pre ++ st :: post
    /\ compose pre v (ext w) = (Returns vk, sk)
    /\ body st vk sk = (Raises e, s', inner)
    /\ r = (if exc_is_Exception e
            then HttpsError ABORTED
                   ("error in " +:+ qualname st +:+ ": " +:+ exc_str e) (Some e)
            else Propagated e)
    /\ w' = {| ext := s';
               trace := trace w ++ success_log pre v (ext w)
                          ++ ATTEMPT (qualname st)
                          :: Invoked (qualname st) vk inner
                          :: (if exc_is_Exception e
                              then [FAILURE (qualname st) vk e]
                              else []) |}.
Proof.
  intros H.
  destruct (safe_pipe_raise_inv steps v w r w' H)
    as (pre & st & post & vk & sk & e & s' & inner & Hs & Hc & Hb).
  exists pre, st, post, vk, sk, e, s', inner.
  split; [exact Hs|]. split; [exact Hc|]. split; [exact Hb|].
  subst steps. destruct (exc_is_Exception e) eqn:He.
  - rewrite (safe_pipe_fails pre st post v w vk sk e s' inner Hc Hb He) in H.
    injection H as <- <-. split; reflexivity.
  - rewrite (safe_pipe_app pre (st :: post) v w vk sk Hc), safe_pipe_cons in H.
    rewrite (wrapped_passes st vk
               {| ext := sk; trace := trace w ++ success_log pre v (ext w) |}
               e s' inner Hb He) in H.
    injection H as <- <-. cbn [trace]. rewrite <- app_assoc.
    split; reflexivity.
Qed.

Lemma safe_pipe_raises_translated_witness :
  safe_pipe 3 [incr; failing value_error; twice] idle
  = (Raise (HttpsError ABORTED "error in failing: bad value" (Some value_error)),
     {| ext := 2;
        trace := [ATTEMPT "incr"; Invoked "incr" 3 []; SUCCESS "incr" 3 4;
                  ATTEMPT "failing"; Invoked "failing" 4 [];
                  FAILURE "failing" 4 value_error] |})
  /\ exists pre st post vk sk e s' inner,
       [incr; failing value_error; twice] = pre ++ st :: post
       /\ compose pre 3 (ext idle) = (Returns vk, sk)
       /\ body st vk sk = (Raises e, s', inner)
       /\ HttpsError ABORTED "error in failing: bad value" (Some value_error)
          = (if exc_is_Exception e
             then HttpsError ABORTED
                    ("error in " +:+ qualname st +:+ ": " +:+ exc_str e) (Some e)
             else Propagated e)
       /\ {| ext := 2;
             trace := [ATTEMPT "incr"; Invoked "incr" 3 []; SUCCESS "incr" 3 4;
                       ATTEMPT "failing"; Invoked "failing" 4 [];
                       FAILURE "failing" 4 value_error] |}
          = {| ext := s';
               trace := trace idle ++ success_log pre 3 (ext idle)
                          ++ ATTEMPT (qualname st)
                          :: Invoked (qualname st) vk inner
                          :: (if exc_is_Exception e
                              then [FAILURE (qualname st) vk e]
                              else []) |}.
Proof.
  split; [reflexivity|].
  apply (safe_pipe_raises_translated [incr; failing value_error; twice] 3 idle).
  reflexivity.
Defined.

(** X3: a run only adds records to the log; the steps it calls are the
    first [k] steps, in order, each called once and each with one ATTEMPT
    record; and a run that returns has called them all. *)
Theorem safe_pipe_calls_a_prefix {S V : Type} (steps : list (Step S V)) (v : V)
    (w : World S V) :
  exists k log,
    k <= length steps
    /\ trace (snd (safe_pipe v steps w)) = trace w ++ log
    /\ invocations log = map qualname (firstn k steps)
    /\ length (List.filter is_attempt log) = k
    /\ (forall y, fst (safe_pipe v steps w) = Ok y -> k = length steps).
Proof.
  revert v w. induction steps as [|st steps IH]; intros v w.
  - exists 0, []. rewrite safe_pipe_nil. cbn. rewrite app_nil_r.
    repeat split. lia.
  - rewrite safe_pipe_cons.
    destruct (body st v (ext w)) as [[[y|e] s1] inner] eqn:E.
    + rewrite (wrapped_returns _ _ _ _ _ _ E).
      match goal with
      | |- context [safe_pipe y steps ?w1] =>
          destruct (IH y w1) as (k & log & Hk & Ht & Hi & Ha & Hok)
      end.
      exists (Datatypes.S k),
        (ATTEMPT (qualname st) :: Invoked (qualname st) v inner
           :: SUCCESS (qualname st) v y :: log).
      split; [cbn; lia|]. split.
      { rewrite Ht. cbn [trace]. rewrite <- app_assoc. reflexivity. }
      split; [cbn; rewrite Hi; reflexivity|].
      split; [cbn; rewrite Ha; reflexivity|].
      intros y' Hy. cbn. f_equal. exact (Hok y' Hy).
    + destruct (exc_is_Exception e) eqn:He.
      * rewrite (wrapped_raises _ _ _ _ _ _ E He).
        exists 1, [ATTEMPT (qualname st); Invoked (qualname st) v inner;
                   FAILURE (qualname st) v e].
        cbn. repeat split; try lia. intros y Hy. discriminate Hy.
      * rewrite (wrapped_passes _ _ _ _ _ _ E He).
        exists 1, [ATTEMPT (qualname st); Invoked (qualname st) v inner].
        cbn. repeat split; try lia. intros y Hy. discriminate Hy.
Qed.

(** X4: when step k raises an exception that is not an [Exception] and the
    steps before it succeed, the run raises that very exception; step k has
    its ATTEMPT record and no FAILURE record, the steps after it are not
    called, and the state is the one step k left. *)
Theorem safe_pipe_passes_non_Exception {S V : Type}
    (pre : list (Step S V)) (st : Step S V) (post : list (Step S V))
    (v : V) (w : World S V) (vk : V) (sk : S) (e : PyExc) (s' : S)
    (inner : list (Event V)) :
  compose pre v (ext w) = (Returns vk, sk) ->
  body st vk sk = (Raises e, s', inner) ->
  exc_is_Exception e = false ->
  exists log_pre,
    safe_pipe v (pre ++ st :: post) w
    = (Raise (Propagated e),
       {| ext := s';
          trace := trace w ++ log_pre
                     ++ [ATTEMPT (qualname st); Invoked (qualname st) vk inner] |})
    /\ paired pre log_pre.
Proof.
  intros Hpre Hst He. exists (success_log pre v (ext w)). split.
  - rewrite (safe_pipe_app pre (st :: post) v w vk sk Hpre), safe_pipe_cons.
    rewrite (wrapped_passes st vk
               {| ext := sk; trace := trace w ++ success_log pre v (ext w) |}
               e s' inner Hst He).
    cbn [trace]. rewrite <- app_assoc. reflexivity.
  - eapply success_log_paired; eassumption.
Qed.

Lemma safe_pipe_passes_non_Exception_witness :
  compose [incr] 3 (ext idle) = (Returns 4, 1)
  /\ body (failing keyboard_interrupt) 4 1 = (Raises keyboard_interrupt, 2, [])
  /\ exc_is_Exception keyboard_interrupt = false
  /\ exists log_pre,
       safe_pipe 3 ([incr] ++ failing keyboard_interrupt :: [twice]) idle
       = (Raise (Propagated keyboard_interrupt),
          {| ext := 2;
             trace := trace idle ++ log_pre
                        ++ [ATTEMPT "failing"; Invoked "failing" 4 []] |})
       /\ paired [incr] log_pre.
Proof.
  split; [reflexivity|]. split; [reflexivity|]. split; [reflexivity|].
  apply (safe_pipe_passes_non_Exception [incr] (failing keyboard_interrupt)
           [twice] 3 idle 4 1 keyboard_interrupt 2 []);
    reflexivity.
Defined.

(** ** Asset selector *)

(** X5: whatever happens, [random_blob] makes exactly one call to the
    outside, the listing of the bucket with the prefix and delimiter it was
    given: making the handle downloads nothing. *)
Theorem random_blob_lists_once env prefix delimiter (w : Wd) :
  ext (snd (random_blob env prefix delimiter w))
  = ext w ++ [ListBlobs prefix delimiter].
Proof.
  destruct (respond env (ext w) (ListBlobs prefix delimiter)) as [e|] eqn:R.
  - exact (proj2 (random_blob_listing_fails _ _ _ _ _ R)).
  - destruct (distinct_names prefix (list_blobs env prefix delimiter))
      as [|n ns] eqn:D.
    + exact (proj2 (random_blob_nothing_to_choose _ _ _ _ R D)).
    + apply (random_blob_chooses _ _ _ _ R). rewrite D. discriminate.
Qed.

(** X6: when the listing of the bucket fails, [random_blob] raises the
    ABORTED error of its first step, the lambda, with the message of the
    failure; [random.choice] and [bucket.blob] are not called. *)
Theorem random_blob_reports_listing_failure env prefix delimiter (w : Wd) e :
  respond env (ext w) (ListBlobs prefix delimiter) = Some e ->
  random_blob env prefix delimiter w
  = (Raise (HttpsError ABORTED
              ("error in random_blob.<locals>.<lambda>: " +:+ lib_str e)
              (Some (as_exc e))),
     {| ext := ext w ++ [ListBlobs prefix delimiter];
        trace := trace w
                   ++ [ATTEMPT "random_blob.<locals>.<lambda>";
                       Invoked "random_blob.<locals>.<lambda>"
                         (VListing prefix delimiter) [];
                       FAILURE "random_blob.<locals>.<lambda>"
                         (VListing prefix delimiter) (as_exc e)] |}).
Proof.
  intros H. unfold random_blob.
  assert (E := safe_pipe_fails [] (names_of_blobs env prefix)
                 [random_choice env; bucket_blob] (VListing prefix delimiter) w
                 (VListing prefix delimiter) (ext w) (as_exc e)
                 (ext w ++ [ListBlobs prefix delimiter]) [] eq_refl
                 (names_of_blobs_raises _ _ _ _ _ _ H) eq_refl).
  cbn [app] in E. rewrite E. reflexivity.
Qed.

Lemma random_blob_reports_listing_failure_witness :
  respond (sample_env audio_store store_down None) (ext fresh)
    (ListBlobs (Some "audio/") None) = Some network_error
  /\ random_blob (sample_env audio_store store_down None) (Some "audio/") None
       fresh
     = (Raise (HttpsError ABORTED
                 ("error in random_blob.<locals>.<lambda>: "
                    +:+ lib_str network_error)
                 (Some (as_exc network_error))),
        {| ext := ext fresh ++ [ListBlobs (Some "audio/") None];
           trace := trace fresh
                      ++ [ATTEMPT "random_blob.<locals>.<lambda>";
                          Invoked "random_blob.<locals>.<lambda>"
                            (VListing (Some "audio/") None) [];
                          FAILURE "random_blob.<locals>.<lambda>"
                            (VListing (Some "audio/") None)
                            (as_exc network_error)] |}).
Proof.
  split; [reflexivity|].
  apply (random_blob_reports_listing_failure
           (sample_env audio_store store_down None) (Some "audio/") None fresh
           network_error).
  reflexivity.
Defined.


(** ** Text *)

Lemma honk_char_alphabet (c : N) :
  ((c =? 120) || (c =? 88))%N = true ->
  Forall (fun h => In h (py "honk HONK")) (honk_char c).
Proof.
  unfold honk_char. intros H.
  destruct (c =? 120)%N; [|destruct (c =? 88)%N; [|discriminate H]];
    apply List.Forall_forall; intros h Hh; vm_compute in Hh; vm_compute;
    repeat (destruct Hh as [<-|Hh];
            [repeat (first [left; reflexivity | right])|]);
    destruct Hh.
Qed.

Lemma honks_alphabet (word : pystr) :
  is_x_run word = true ->
  Forall (fun h => In h (py "honk HONK")) (flat_map honk_char word).
Proof.
  induction word as [|c word IH]; intros H; [constructor|].
  cbn [is_x_run forallb] in H. apply andb_true_iff in H. destruct H as [Hc Hw].
  cbn [flat_map]. apply Forall_app. split.
  - apply honk_char_alphabet. exact Hc.
  - apply IH. exact Hw.
Qed.

Lemma join_Forall (P : N -> Prop) (sep : pystr) (words : list pystr) :
  Forall P sep -> Forall (Forall P) words -> Forall P (join sep words).
Proof.
  intros Hsep H. induction H as [|word words Hw Hws IH]; [constructor|].
  destruct words as [|w' words]; [exact Hw|].
  cbn [join] in *. apply Forall_app. split; [exact Hw|].
  apply Forall_app. split; [exact Hsep | exact IH].
Qed.

Lemma honks_of_alphabet (t : pystr) :
  Forall (Forall (fun h => In h (py "honk HONK"))) (honks_of t).
Proof.
  unfold honks_of. apply Forall_map.
  induction (split t) as [|word words IH]; cbn [List.filter]; [constructor|].
  destruct (is_x_run word) eqn:E; [|exact IH].
  constructor; [apply honks_alphabet; exact E | exact IH].
Qed.

(** X8: a reply of [press_x_to_honk] is never empty and is written with the
    letters of "honk" and "HONK" and the space only; in particular it
    holds no [x] and no [X]. *)
Theorem press_x_to_honk_reply_alphabet (t r : pystr) :
  press_x_to_honk_reply t = Some r ->
  r <> []
  /\ Forall (fun h => In h (py "honk HONK")) r
  /\ ~ In 120%N r /\ ~ In 88%N r.
Proof.
  rewrite press_x_to_honk_reply_tokens. intros H.
  assert (Hne := honks_of_nonempty t). assert (Ha := honks_of_alphabet t).
  destruct (honks_of t) as [|h hs] eqn:E; [discriminate H|].
  assert (Hr : r = join (py " ") (h :: hs)) by congruence. subst r. clear H.
  assert (A : Forall (fun c => In c (py "honk HONK")) (join (py " ") (h :: hs))).
  { apply join_Forall; [|exact Ha].
    apply List.Forall_forall. intros ch Hch. vm_compute in Hch. vm_compute.
    destruct Hch as [<-|[]]. repeat (first [left; reflexivity | right]). }
  split; [apply join_nonempty; inversion Hne; assumption|].
  split; [exact A|].
  rewrite List.Forall_forall in A.
  split; intros Hin; apply A in Hin; vm_compute in Hin;
    repeat (destruct Hin as [Hin|Hin]; [discriminate Hin|]); exact Hin.
Qed.

Lemma press_x_to_honk_reply_alphabet_witness :
  press_x_to_honk_reply (py "x marks the XX spot") = Some (py "honk HONKHONK")
  /\ py "honk HONKHONK" <> []
  /\ Forall (fun h => In h (py "honk HONK")) (py "honk HONKHONK")
  /\ ~ In 120%N (py "honk HONKHONK") /\ ~ In 88%N (py "honk HONKHONK").
Proof.
  split; [reflexivity|].
  apply (press_x_to_honk_reply_alphabet (py "x marks the XX spot")
           (py "honk HONKHONK")).
  reflexivity.
Defined.

Lemma split_starts (c : N) (rest : pystr) :
  isspace c = false -> split (c :: rest) <> [].
Proof.
  intros H. cbn [split]. rewrite H.
  destruct rest as [|c' rest']; [discriminate|].
  destruct (isspace c'); [discriminate|].
  destruct (split (c' :: rest')); discriminate.
Qed.

(** Splitting at a whitespace character splits the tokens. *)
Lemma split_app_space (a b : pystr) (c : N) :
  isspace c = true -> split (a ++ c :: b) = split a ++ split b.
Proof.
  intros Hc. induction a as [|x a IH].
  - cbn [app split]. rewrite Hc. reflexivity.
  - cbn [app]. cbn [split]. destruct (isspace x) eqn:Hx; [exact IH|].
    rewrite IH. destruct a as [|y a'].
    + cbn [app split]. rewrite Hc. reflexivity.
    + cbn [app]. destruct (isspace y) eqn:Hy; [reflexivity|].
      assert (Hs := split_starts y a' Hy).
      destruct (split (y :: a')) as [|tok toks]; [contradiction|]. reflexivity.
Qed.

Lemma honks_of_app_space (a b : pystr) (c : N) :
  isspace c = true -> honks_of (a ++ c :: b) = honks_of a ++ honks_of b.
Proof.
  intros Hc. unfold honks_of.
  rewrite (split_app_space a b c Hc), List.filter_app, map_app. reflexivity.
Qed.

Lemma join_app (sep : pystr) (l1 l2 : list pystr) :
  l1 <> [] -> l2 <> [] ->
  join sep (l1 ++ l2) = join sep l1 ++ sep ++ join sep l2.
Proof.
  intros H1 H2. induction l1 as [|w l1 IH]; [contradiction|].
  destruct l1 as [|w' l1].
  - cbn [app]. destruct l2 as [|x l2]; [contradiction|]. reflexivity.
  - change (join sep ((w :: w' :: l1) ++ l2))
      with (w ++ sep ++ join sep ((w' :: l1) ++ l2)).
    rewrite IH by discriminate.
    change (join sep (w :: w' :: l1)) with (w ++ sep ++ join sep (w' :: l1)).
    rewrite <- !app_assoc. reflexivity.
Qed.

(** X9: the reply to two texts put together with a whitespace character
    between them is made of the replies to each: both, with one space
    between them, or the one there is, or none. *)
Theorem press_x_to_honk_reply_app (a b : pystr) (c : N) :
  isspace c = true ->
  press_x_to_honk_reply (a ++ c :: b)
  = match press_x_to_honk_reply a, press_x_to_honk_reply b with
    | Some ra, Some rb => Some (ra ++ py " " ++ rb)
    | Some ra, None => Some ra
    | None, Some rb => Some rb
    | None, None => None
    end.
Proof.
  intros Hc. rewrite !press_x_to_honk_reply_tokens, (honks_of_app_space a b c Hc).
  destruct (honks_of a) as [|ha hsa]; destruct (honks_of b) as [|hb hsb];
    cbn [app]; try reflexivity.
  - rewrite app_nil_r. reflexivity.
  - change (ha :: hsa ++ hb :: hsb) with ((ha :: hsa) ++ hb :: hsb).
    rewrite join_app by discriminate. reflexivity.
Qed.

Lemma press_x_to_honk_reply_app_witness :
  isspace 10%N = true
  /\ press_x_to_honk_reply (py "say x" ++ 10%N :: py "XX now")
     = match press_x_to_honk_reply (py "say x"),
             press_x_to_honk_reply (py "XX now") with
       | Some ra, Some rb => Some (ra ++ py " " ++ rb)
       | Some ra, None => Some ra
       | None, Some rb => Some rb
       | None, None => None
       end.
Proof.
  split; [reflexivity|].
  apply (press_x_to_honk_reply_app (py "say x") (py "XX now") 10%N).
  reflexivity.
Defined.

(** ** Command router *)

(** X10: the route table of the application that the construction
    pipeline ([_build_application], then [_register_handlers]) returns, read
    by first match: the commands [/start], [/help] and [/honk] go to their
    handlers and any other command to none; a voice note goes to [honk], a
    photo or a video to [send_gif], a text that is not a command to
    [press_x_to_honk]; [oops] is selected for no event and is the one error
    handler. *)
Theorem registered_routes env (w0 : Wd) built update :
  fst (safe_pipe (VStr (BOT_TOKEN env))
         [_build_application env; _register_handlers] w0)
  = Ok (VApplication built) ->
  select built update
  = match kind update with
    | COMMAND =>
        match command update with
        | Some name =>
            if String.eqb name "start" then Some cb_start
            else if String.eqb name "help" then Some cb_help
            else if String.eqb name "honk" then Some cb_honk
            else None
        | None => None
        end
    | VOICE => Some cb_honk
    | MEDIA _ => Some cb_send_gif
    | TEXT => Some cb_press_x_to_honk
    end
  /\ select built update <> Some cb_oops
  /\ error_handlers built = [cb_oops].
Proof.
  intros H.
  destruct (safe_pipe (VStr (BOT_TOKEN env))
              [_build_application env; _register_handlers] w0)
    as [o w1] eqn:P.
  cbn [fst] in H. subst o.
  assert (B := built_application env w0 _ w1 P). injection B as ->.
  assert (E : select (the_application env) update
              = match kind update with
                | COMMAND =>
                    match command update with
                    | Some name =>
                        if String.eqb name "start" then Some cb_start
                        else if String.eqb name "help" then Some cb_help
                        else if String.eqb name "honk" then Some cb_honk
                        else None
                    | None => None
                    end
                | VOICE => Some cb_honk
                | MEDIA _ => Some cb_send_gif
                | TEXT => Some cb_press_x_to_honk
                end).
  { unfold select, the_application, registered_handlers.
    cbn [handlers app List.find check_update matches].
    destruct (kind update) as [| |[|]|]; cbn [negb andb orb option_map callback_of];
      try reflexivity.
    destruct (command update) as [name|]; [|reflexivity].
    destruct (String.eqb name "start"); [reflexivity|].
    destruct (String.eqb name "help"); [reflexivity|].
    destruct (String.eqb name "honk"); reflexivity. }
  split; [exact E|]. split; [|reflexivity]. rewrite E.
  destruct (kind update) as [| |[|]|]; try discriminate.
  destruct (command update) as [name|]; [|discriminate].
  destruct (String.eqb name "start"); [discriminate|].
  destruct (String.eqb name "help"); [discriminate|].
  destruct (String.eqb name "honk"); discriminate.
Qed.

Lemma registered_routes_witness :
  fst (safe_pipe (VStr (BOT_TOKEN (sample_env audio_store all_fine None)))
         [_build_application (sample_env audio_store all_fine None);
          _register_handlers] fresh)
  = Ok (VApplication (the_application (sample_env audio_store all_fine None)))
  /\ select (the_application (sample_env audio_store all_fine None)) start_command
     = Some cb_start
  /\ select (the_application (sample_env audio_store all_fine None)) unknown_command
     = None
  /\ select (the_application (sample_env audio_store all_fine None)) photo
     = Some cb_send_gif.
Proof.
  assert (H : fst (safe_pipe
                     (VStr (BOT_TOKEN (sample_env audio_store all_fine None)))
                     [_build_application (sample_env audio_store all_fine None);
                      _register_handlers] fresh)
              = Ok (VApplication
                      (the_application (sample_env audio_store all_fine None))))
    by reflexivity.
  split; [exact H|].
  split; [|split].
  - exact (proj1 (registered_routes (sample_env audio_store all_fine None) fresh
                    _ start_command H)).
  - exact (proj1 (registered_routes (sample_env audio_store all_fine None) fresh
                    _ unknown_command H)).
  - exact (proj1 (registered_routes (sample_env audio_store all_fine None) fresh
                    _ photo H)).
Defined.

(** ** Handlers *)

Lemma addressed_app chat (l1 l2 : Calls) :
  addressed chat (l1 ++ l2) = addressed chat l1 && addressed chat l2.
Proof. apply forallb_app. Qed.

Lemma ret_confined {A} chat (a : A) : confined chat (@ret Calls Value A a).
Proof. intros w. exists []. split; [symmetry; apply app_nil_r | reflexivity]. Qed.

Lemma raise_confined {A} chat r : confined chat (@raise Calls Value A r).
Proof. intros w. exists []. split; [symmetry; apply app_nil_r | reflexivity]. Qed.

Lemma call_confined env chat c :
  (forall z, chat_of c = Some z -> z = chat) -> confined chat (call env c).
Proof.
  intros H w. exists [c]. rewrite call_ext. split; [reflexivity|].
  cbn. destruct (chat_of c) as [z|]; [|reflexivity].
  rewrite (H z eq_refl), Z.eqb_refl. reflexivity.
Qed.

Lemma bind_confined {A B} chat (m : Prog A) (f : A -> Prog B) :
  confined chat m -> (forall a, confined chat (f a)) -> confined chat (bind m f).
Proof.
  intros Hm Hf w. destruct (Hm w) as (n1 & E1 & A1). unfold bind.
  destruct (m w) as [[a|r] w1]; cbn [snd] in *.
  - destruct (Hf a w1) as (n2 & E2 & A2). exists (n1 ++ n2).
    rewrite E2, E1, <- app_assoc, addressed_app, A1, A2. split; reflexivity.
  - exists n1. split; assumption.
Qed.

Lemma fetch_calls_addressed env prefix delimiter send history chat :
  (forall b z, chat_of (send b) = Some z -> z = chat) ->
  addressed chat (fetch_calls env prefix delimiter send history) = true.
Proof.
  intros H. unfold fetch_calls. cbn [addressed forallb chat_of andb].
  destruct (respond env history _); [reflexivity|].
  destruct (distinct_names prefix _) as [|n ns]; [reflexivity|].
  cbn [forallb chat_of andb].
  destruct (respond env _ _); [reflexivity|].
  cbn [forallb]. destruct (chat_of (send _)) as [z|] eqn:E; [|reflexivity].
  rewrite (H _ _ E), Z.eqb_refl. reflexivity.
Qed.

Lemma fetch_and_send_confined env owner prefix delimiter send chat :
  (forall b z, chat_of (send b) = Some z -> z = chat) ->
  confined chat (fetch_and_send env owner prefix delimiter send).
Proof.
  intros H w. exists (fetch_calls env prefix delimiter send (ext w)).
  split; [apply fetch_and_send_calls | apply fetch_calls_addressed; exact H].
Qed.

Lemma decorated_confined env action handler update :
  confined (chatId update) (handler update) ->
  confined (chatId update) (_send_chat_action env action handler update).
Proof.
  intros H. apply bind_confined.
  - apply call_confined. intros z E. injection E as <-. reflexivity.
  - intros _. exact H.
Qed.

Ltac to_own_chat :=
  match goal with
  | |- forall z, chat_of _ = Some z -> z = _ =>
      let E := fresh in intros ? E; injection E as <-; reflexivity
  | |- forall b z, chat_of _ = Some z -> z = _ =>
      let E := fresh in intros ? ? E; injection E as <-; reflexivity
  end.

Lemma run_callback_confined env cb update :
  confined (chatId update) (run_callback env cb update).
Proof.
  destruct cb; cbn [run_callback].
  - apply bind_confined; intros; apply decorated_confined;
      [apply fetch_and_send_confined | apply call_confined]; to_own_chat.
  - apply decorated_confined, call_confined. to_own_chat.
  - apply decorated_confined, fetch_and_send_confined. to_own_chat.
  - apply decorated_confined, fetch_and_send_confined. to_own_chat.
  - apply decorated_confined.
    destruct (text update) as [t|]; [|apply raise_confined].
    destruct (press_x_to_honk_reply t); [|apply ret_confined].
    apply call_confined. to_own_chat.
  - apply decorated_confined, call_confined. to_own_chat.
Qed.

(** X11: every handler, and the dispatch of an event with its fallback,
    only adds calls, and none of them is addressed to a chat other than the
    chat of the event. *)
Theorem replies_stay_in_the_chat env update (w : Wd) :
  (forall cb,
     exists new,
       ext (snd (run_callback env cb update w)) = ext w ++ new
       /\ addressed (chatId update) new = true)
  /\ exists new,
       ext (snd (process_update env (the_application env) (Some update) w))
       = ext w ++ new
       /\ addressed (chatId update) new = true.
Proof.
  split; [intros cb; apply run_callback_confined|].
  unfold process_update.
  destruct (select (the_application env) update) as [cb|];
    [|exists []; split; [symmetry; apply app_nil_r | reflexivity]].
  destruct (run_callback_confined env cb update w) as (n1 & E1 & A1).
  destruct (run_callback env cb update w) as [[[]|r] w1] eqn:R; cbn [snd] in *.
  - exists n1. split; assumption.
  - destruct (run_callback_confined env cb_oops update w1) as (n2 & E2 & A2).
    assert (P : ext (process_error env (error_handlers (the_application env))
                       update w1) = ext w ++ n1 ++ n2).
    { cbn [the_application error_handlers app process_error].
      rewrite E2, E1, <- app_assoc. reflexivity. }
    destruct r as [e|code message cause].
    + destruct (exc_is_Exception e); cbn [snd].
      * exists (n1 ++ n2). rewrite addressed_app, A1, A2. split; [exact P|reflexivity].
      * exists n1. split; assumption.
    + cbn [snd]. exists (n1 ++ n2).
      rewrite addressed_app, A1, A2. split; [exact P|reflexivity].
Qed.

Lemma fetch_calls_In env prefix delimiter send history c :
  In c (fetch_calls env prefix delimiter send history) ->
  c = ListBlobs prefix delimiter
  \/ exists name,
       In name (list_blobs env prefix delimiter)
       /\ Some name <> prefix
       /\ In (Download name) (fetch_calls env prefix delimiter send history)
       /\ (c = Download name
           \/ (c = send (content env name)
               /\ respond env (history ++ [ListBlobs prefix delimiter])
                    (Download name) = None)).
Proof.
  unfold fetch_calls. intros [H|H]; [left; symmetry; exact H|].
  destruct (respond env history _); [destruct H|].
  destruct (distinct_names prefix (list_blobs env prefix delimiter))
    as [|n ns] eqn:D; [destruct H|].
  assert (Hn : In (nth (draw env mod length (n :: ns)) (n :: ns) "")
                  (distinct_names prefix (list_blobs env prefix delimiter)))
    by (rewrite D; apply chosen_In; discriminate).
  apply distinct_names_In in Hn. destruct Hn as [Hl Hp].
  right. exists (nth (draw env mod length (n :: ns)) (n :: ns) "").
  split; [exact Hl|]. split; [exact Hp|].
  split; [right; left; reflexivity|].
  destruct H as [H|H]; [left; symmetry; exact H|].
  destruct (respond env _ _); [destruct H|].
  destruct H as [H|[]]. right. split; [symmetry; exact H | reflexivity].
Qed.

Lemma send_gif_calls env update (w : Wd) :
  ext (snd (send_gif env update w))
  = ext w ++ SendChatAction (chatId update) UPLOAD_PHOTO ::
      match respond env (ext w) (SendChatAction (chatId update) UPLOAD_PHOTO) with
      | Some _ => []
      | None =>
          fetch_calls env (Some "media/hello/") (Some "/")
            (fun file => ReplyDocument (chatId update) file "hello.gif")
            (ext w ++ [SendChatAction (chatId update) UPLOAD_PHOTO])
      end.
Proof.
  unfold send_gif. rewrite decorated_run.
  destruct (respond env (ext w) _); [reflexivity|].
  change (ext (snd (fetch_and_send env "send_gif" (Some "media/hello/") (Some "/")
                      (fun file => ReplyDocument (chatId update) file "hello.gif")
                      {| ext := ext w ++ [SendChatAction (chatId update) UPLOAD_PHOTO];
                         trace := trace w |}))
          = ext w ++ SendChatAction (chatId update) UPLOAD_PHOTO ::
              fetch_calls env (Some "media/hello/") (Some "/")
                (fun file => ReplyDocument (chatId update) file "hello.gif")
                (ext w ++ [SendChatAction (chatId update) UPLOAD_PHOTO])).
  rewrite fetch_and_send_calls. cbn [ext]. rewrite <- app_assoc. reflexivity.
Qed.

(** X12: a voice reply that [honk] sends goes to the chat of the event,
    has duration 1, and carries the bytes of a blob that the bucket lists
    under "audio/", other than "audio/" itself, and that was downloaded
    before. *)
Theorem honk_sends_a_listed_audio_blob env update (w : Wd) chat voice duration :
  In (ReplyVoice chat voice duration) (ext (snd (honk env update w))) ->
  ~ In (ReplyVoice chat voice duration) (ext w) ->
  chat = chatId update
  /\ duration = 1%Z
  /\ exists name,
       voice = content env name
       /\ In name (list_blobs env (Some "audio/") None)
       /\ name <> "audio/"
       /\ String.prefix "audio/" name = true
       /\ In (Download name) (ext (snd (honk env update w))).
Proof.
  intros Hin Hold. assert (C := honk_calls env update w).
  rewrite C in Hin |- *. apply in_app_or in Hin.
  destruct Hin as [Hin|[Hin|Hin]]; [contradiction | discriminate Hin |].
  destruct (respond env (ext w) _); [destruct Hin|].
  apply fetch_calls_In in Hin.
  destruct Hin as [Hin|(name & Hl & Hp & Hd & [Hin|[Hin _]])];
    try discriminate Hin.
  injection Hin as -> -> ->.
  split; [reflexivity|]. split; [reflexivity|].
  exists name. split; [reflexivity|]. split; [exact Hl|].
  split; [congruence|]. split; [exact (listed_under_prefix _ _ _ _ Hl)|].
  apply in_or_app. right. right. exact Hd.
Qed.

Lemma honk_sends_a_listed_audio_blob_witness :
  In (ReplyVoice 7 [79; 103; 103; 83]%N 1)
     (ext (snd (honk (sample_env audio_store all_fine (Some voice_note))
                  voice_note fresh)))
  /\ ~ In (ReplyVoice 7 [79; 103; 103; 83]%N 1) (ext fresh)
  /\ 7%Z = chatId voice_note
  /\ 1%Z = 1%Z
  /\ exists name,
       [79; 103; 103; 83]%N
       = content (sample_env audio_store all_fine (Some voice_note)) name
       /\ In name (list_blobs (sample_env audio_store all_fine (Some voice_note))
                     (Some "audio/") None)
       /\ name <> "audio/"
       /\ String.prefix "audio/" name = true
       /\ In (Download name)
            (ext (snd (honk (sample_env audio_store all_fine (Some voice_note))
                         voice_note fresh))).
Proof.
  assert (H1 : In (ReplyVoice 7 [79; 103; 103; 83]%N 1)
                 (ext (snd (honk (sample_env audio_store all_fine
                                    (Some voice_note)) voice_note fresh))))
    by (vm_compute; repeat (first [left; reflexivity | right])).
  assert (H2 : ~ In (ReplyVoice 7 [79; 103; 103; 83]%N 1) (ext fresh))
    by (intros []).
  split; [exact H1|]. split; [exact H2|].
  exact (honk_sends_a_listed_audio_blob
           (sample_env audio_store all_fine (Some voice_note)) voice_note fresh
           7%Z [79; 103; 103; 83]%N 1%Z H1 H2).
Defined.

Lemma listed_is_top_level env p d name :
  In name (list_blobs env (Some p) (Some d)) ->
  contains d (String.substring (String.length p)
                (String.length name - String.length p) name) = false.
Proof.
  unfold list_blobs. rewrite filter_In. intros [_ H].
  unfold under in H. apply andb_true_iff in H.
  apply negb_true_iff. exact (proj2 H).
Qed.

(** X13: a document that [send_gif] sends goes to the chat of the event,
    is named "hello.gif", and carries the bytes of a blob that the bucket
    lists directly under "media/hello/": not "media/hello/" itself and with
    no further "/" after that prefix. *)
Theorem send_gif_sends_a_top_level_blob env update (w : Wd) chat document
    filename :
  In (ReplyDocument chat document filename) (ext (snd (send_gif env update w))) ->
  ~ In (ReplyDocument chat document filename) (ext w) ->
  chat = chatId update
  /\ filename = "hello.gif"
  /\ exists name,
       document = content env name
       /\ In name (objects env)
       /\ name <> "media/hello/"
       /\ String.prefix "media/hello/" name = true
       /\ contains "/" (String.substring 12 (String.length name - 12) name)
          = false
       /\ In (Download name) (ext (snd (send_gif env update w))).
Proof.
  intros Hin Hold. assert (C := send_gif_calls env update w).
  rewrite C in Hin |- *. apply in_app_or in Hin.
  destruct Hin as [Hin|[Hin|Hin]]; [contradiction | discriminate Hin |].
  destruct (respond env (ext w) _); [destruct Hin|].
  apply fetch_calls_In in Hin.
  destruct Hin as [Hin|(name & Hl & Hp & Hd & [Hin|[Hin _]])];
    try discriminate Hin.
  injection Hin as -> -> ->.
  split; [reflexivity|]. split; [reflexivity|].
  exists name. split; [reflexivity|].
  split; [unfold list_blobs in Hl; apply filter_In in Hl; exact (proj1 Hl)|].
  split; [congruence|]. split; [exact (listed_under_prefix _ _ _ _ Hl)|].
  split; [exact (listed_is_top_level _ _ _ _ Hl)|].
  apply in_or_app. right. right. exact Hd.
Qed.

Lemma send_gif_sends_a_top_level_blob_witness :
  In (ReplyDocument 7 [79; 103; 103; 83]%N "hello.gif")
     (ext (snd (send_gif (sample_env gif_store all_fine (Some photo)) photo fresh)))
  /\ ~ In (ReplyDocument 7 [79; 103; 103; 83]%N "hello.gif") (ext fresh)
  /\ In (Download "media/hello/wave.gif")
       (ext (snd (send_gif (sample_env gif_store all_fine (Some photo)) photo
                    fresh)))
  /\ ~ In (Download "media/hello/old/bye.gif")
         (ext (snd (send_gif (sample_env gif_store all_fine (Some photo)) photo
                      fresh)))
  /\ 7%Z = chatId photo
  /\ "hello.gif" = "hello.gif"
  /\ exists name,
       [79; 103; 103; 83]%N
       = content (sample_env gif_store all_fine (Some photo)) name
       /\ In name (objects (sample_env gif_store all_fine (Some photo)))
       /\ name <> "media/hello/"
       /\ String.prefix "media/hello/" name = true
       /\ contains "/" (String.substring 12 (String.length name - 12) name)
          = false
       /\ In (Download name)
            (ext (snd (send_gif (sample_env gif_store all_fine (Some photo))
                         photo fresh))).
Proof.
  assert (H1 : In (ReplyDocument 7 [79; 103; 103; 83]%N "hello.gif")
                 (ext (snd (send_gif (sample_env gif_store all_fine (Some photo))
                              photo fresh))))
    by (vm_compute; repeat (first [left; reflexivity | right])).
  assert (H2 : ~ In (ReplyDocument 7 [79; 103; 103; 83]%N "hello.gif") (ext fresh))
    by (intros []).
  split; [exact H1|]. split; [exact H2|].
  split; [vm_compute; repeat (first [left; reflexivity | right])|].
  split.
  { vm_compute. intros H.
    repeat (destruct H as [H|H]; [discriminate H|]). exact H. }
  exact (send_gif_sends_a_top_level_blob
           (sample_env gif_store all_fine (Some photo)) photo fresh
           7%Z [79; 103; 103; 83]%N "hello.gif" H1 H2).
Defined.

Lemma fetch_and_send_no_asset env owner prefix delimiter send (w : Wd) :
  respond env (ext w) (ListBlobs prefix delimiter) = None ->
  distinct_names prefix (list_blobs env prefix delimiter) = [] ->
  fst (fetch_and_send env owner prefix delimiter send w)
  = Raise (HttpsError ABORTED
             "error in Random.choice: Cannot choose from an empty sequence"
             (Some index_error))
  /\ ext (snd (fetch_and_send env owner prefix delimiter send w))
     = ext w ++ [ListBlobs prefix delimiter].
Proof.
  intros R D. unfold fetch_and_send, bind.
  destruct (random_blob_nothing_to_choose _ _ _ _ R D) as [F X].
  destruct (random_blob env prefix delimiter w) as [[v|r] w1];
    cbn [fst snd] in *; [discriminate F|].
  injection F as ->. split; [reflexivity | exact X].
Qed.

(** X14: [/start] with no greeting image in the bucket: once the presence
    and the listing have gone through and the bucket lists nothing under
    "media/hello/" but the folder itself, [start] raises the ABORTED error
    of [Random.choice]; the only calls are the presence and the listing, so
    the greeting text is not sent either. *)
Theorem start_without_image_sends_no_greeting env update (w : Wd) :
  respond env (ext w) (SendChatAction (chatId update) UPLOAD_PHOTO) = None ->
  respond env (ext w ++ [SendChatAction (chatId update) UPLOAD_PHOTO])
    (ListBlobs (Some "media/hello/") (Some "/")) = None ->
  (forall name,
     In name (list_blobs env (Some "media/hello/") (Some "/")) ->
     name = "media/hello/") ->
  fst (start env update w)
  = Raise (HttpsError ABORTED
             "error in Random.choice: Cannot choose from an empty sequence"
             (Some index_error))
  /\ ext (snd (start env update w))
     = ext w ++ [SendChatAction (chatId update) UPLOAD_PHOTO;
                 ListBlobs (Some "media/hello/") (Some "/")].
Proof.
  intros Hp Hl Hnone.
  assert (D : distinct_names (Some "media/hello/")
                (list_blobs env (Some "media/hello/") (Some "/")) = []).
  { apply distinct_names_nil. intros name Hin. f_equal. exact (Hnone name Hin). }
  assert (G : fst (send_gif env update w)
              = Raise (HttpsError ABORTED
                         "error in Random.choice: Cannot choose from an empty sequence"
                         (Some index_error))
              /\ ext (snd (send_gif env update w))
                 = ext w ++ [SendChatAction (chatId update) UPLOAD_PHOTO;
                             ListBlobs (Some "media/hello/") (Some "/")]).
  { unfold send_gif. rewrite decorated_run, Hp.
    destruct (fetch_and_send_no_asset env "send_gif" (Some "media/hello/")
                (Some "/")
                (fun file => ReplyDocument (chatId update) file "hello.gif")
                {| ext := ext w ++ [SendChatAction (chatId update) UPLOAD_PHOTO];
                   trace := trace w |} Hl D) as [F X].
    split; [exact F|]. cbn [ext] in X. rewrite <- app_assoc in X. exact X. }
  unfold start, bind.
  destruct (send_gif env update w) as [[[]|r] w1]; cbn [fst snd] in *;
    destruct G as [G1 G2]; [discriminate G1|].
  split; assumption.
Qed.

Lemma start_without_image_sends_no_greeting_witness :
  respond (sample_env ["media/hello/"] all_fine (Some start_command)) (ext fresh)
    (SendChatAction (chatId start_command) UPLOAD_PHOTO) = None
  /\ respond (sample_env ["media/hello/"] all_fine (Some start_command))
       (ext fresh ++ [SendChatAction (chatId start_command) UPLOAD_PHOTO])
       (ListBlobs (Some "media/hello/") (Some "/")) = None
  /\ (forall name,
        In name (list_blobs (sample_env ["media/hello/"] all_fine
                               (Some start_command))
                   (Some "media/hello/") (Some "/")) ->
        name = "media/hello/")
  /\ fst (start (sample_env ["media/hello/"] all_fine (Some start_command))
            start_command fresh)
     = Raise (HttpsError ABORTED
                "error in Random.choice: Cannot choose from an empty sequence"
                (Some index_error))
  /\ ext (snd (start (sample_env ["media/hello/"] all_fine (Some start_command))
                 start_command fresh))
     = ext fresh ++ [SendChatAction (chatId start_command) UPLOAD_PHOTO;
                     ListBlobs (Some "media/hello/") (Some "/")].
Proof.
  assert (H3 : forall name,
             In name (list_blobs (sample_env ["media/hello/"] all_fine
                                    (Some start_command))
                        (Some "media/hello/") (Some "/")) ->
             name = "media/hello/")
    by (intros name [H|[]]; symmetry; exact H).
  split; [reflexivity|]. split; [reflexivity|]. split; [exact H3|].
  exact (start_without_image_sends_no_greeting
           (sample_env ["media/hello/"] all_fine (Some start_command))
           start_command fresh eq_refl eq_refl H3).
Defined.

(** ** Entry point *)

Lemma decoding_returns env self request j u history :
  get_json env request = inr j ->
  de_json env j = inr u ->
  compose [_extract_json_from_request env self; _convert_json_to_update env self]
    (VRequest request) history
  = (Returns (VUpdate u), history).
Proof.
  intros G D. cbn [compose].
  rewrite (extract_returns env self request _ j G).
  rewrite (convert_returns env self j _ u D). reflexivity.
Qed.

(** X15: a POST whose body decodes, when [initialize] fails: the
    dispatcher raises the ABORTED error of [_handle_update_with_app] with
    the cause in its message, and [initialize] is the only call made: no
    handler runs and [shutdown] is not called. *)
Theorem post_aborts_when_initialize_fails env request (w : Wd) j u e :
  method request = "POST" ->
  build env (BOT_TOKEN env) = None ->
  get_json env request = inr j ->
  de_json env j = inr u ->
  respond env (ext w) Initialize = Some e ->
  fst (handle_request env request w)
  = Raise (HttpsError ABORTED
             ("error in RequestHandler._handle_update_with_app: " +:+ lib_str e)
             (Some (as_exc e)))
  /\ ext (snd (handle_request env request w)) = ext w ++ [Initialize].
Proof.
  intros Hm B G D Hi.
  rewrite (handle_request_built env request w B), Hm.
  cbn [String.eqb Ascii.eqb Bool.eqb].
  set (w1 := {| ext := ext w; trace := trace w ++ construction_log env |}).
  set (handler := {| telegram_app := the_application env |}).
  assert (Bd : body (_handle_update_with_app env handler) (VUpdate u) (ext w1)
               = (Raises (as_exc e), ext w ++ [Initialize], []))
    by (cbn [body _handle_update_with_app]; unfold perform; cbn [ext w1];
        rewrite Hi; reflexivity).
  assert (E := safe_pipe_fails
                 [_extract_json_from_request env handler;
                  _convert_json_to_update env handler]
                 (_handle_update_with_app env handler) []
                 (VRequest request) w1 (VUpdate u) (ext w1) (as_exc e)
                 (ext w ++ [Initialize]) []
                 (decoding_returns env handler request j u (ext w1) G D)
                 Bd eq_refl).
  cbn [app] in E. rewrite E. split; reflexivity.
Qed.

Lemma post_aborts_when_initialize_fails_witness :
  method post_request = "POST"
  /\ build (sample_env audio_store initialize_fails (Some help_command))
       (BOT_TOKEN (sample_env audio_store initialize_fails (Some help_command)))
     = None
  /\ respond (sample_env audio_store initialize_fails (Some help_command))
       (ext fresh) Initialize = Some network_error
  /\ fst (handle_request
            (sample_env audio_store initialize_fails (Some help_command))
            post_request fresh)
     = Raise (HttpsError ABORTED
                ("error in RequestHandler._handle_update_with_app: "
                   +:+ lib_str network_error)
                (Some (as_exc network_error)))
  /\ ext (snd (handle_request
                 (sample_env audio_store initialize_fails (Some help_command))
                 post_request fresh))
     = ext fresh ++ [Initialize].
Proof.
  split; [reflexivity|]. split; [reflexivity|]. split; [reflexivity|].
  apply (post_aborts_when_initialize_fails
           (sample_env audio_store initialize_fails (Some help_command))
           post_request fresh (JString "{}") (Some help_command) network_error);
    reflexivity.
Defined.

Lemma handle_update_body env self update history sd :
  respond env history Initialize = None ->
  (forall h, respond env h Shutdown = sd) ->
  body (_handle_update_with_app env self) (VUpdate update) history
  = (match sd with
     | None => Returns (VResponse (Response_ "ok"))
     | Some e => Raises (as_exc e)
     end,
     ext (snd (process_update env (telegram_app self) update
                 {| ext := history ++ [Initialize]; trace := [] |}))
       ++ [Shutdown],
     trace (snd (process_update env (telegram_app self) update
                   {| ext := history ++ [Initialize]; trace := [] |}))).
Proof.
  intros Hi Hs. cbn [body _handle_update_with_app]. unfold perform.
  rewrite Hi.
  assert (R := process_update_returns env (telegram_app self) update
                 {| ext := history ++ [Initialize]; trace := [] |}).
  destruct (process_update env (telegram_app self) update _) as [[[]|e] w1];
    cbn [fst snd] in *; [|discriminate R].
  rewrite Hs. destruct sd; reflexivity.
Qed.

(** X16: a POST whose body decodes, once [initialize] has succeeded: the
    calls are [initialize], then those of the dispatch of the event, then
    [shutdown]; the answer is 200 "ok" when [shutdown] succeeds, and when
    it fails the dispatcher raises the ABORTED error of
    [_handle_update_with_app], what the handlers sent staying sent. *)
Theorem post_brackets_dispatch env request (w : Wd) j u sd :
  method request = "POST" ->
  build env (BOT_TOKEN env) = None ->
  get_json env request = inr j ->
  de_json env j = inr u ->
  respond env (ext w) Initialize = None ->
  (forall h, respond env h Shutdown = sd) ->
  ext (snd (handle_request env request w))
  = ext (snd (process_update env (the_application env) u
                {| ext := ext w ++ [Initialize]; trace := [] |}))
      ++ [Shutdown]
  /\ fst (handle_request env request w)
     = match sd with
       | None => Ok (VResponse {| status := 200; response_body := "ok" |})
       | Some e =>
           Raise (HttpsError ABORTED
                    ("error in RequestHandler._handle_update_with_app: "
                       +:+ lib_str e)
                    (Some (as_exc e)))
       end.
Proof.
  intros Hm B G D Hi Hs.
  rewrite (handle_request_built env request w B), Hm.
  cbn [String.eqb Ascii.eqb Bool.eqb].
  set (w1 := {| ext := ext w; trace := trace w ++ construction_log env |}).
  set (handler := {| telegram_app := the_application env |}).
  assert (Bd := handle_update_body env handler u (ext w1) sd Hi Hs).
  destruct sd as [e|].
  - assert (E := safe_pipe_fails
                   [_extract_json_from_request env handler;
                    _convert_json_to_update env handler]
                   (_handle_update_with_app env handler) []
                   (VRequest request) w1 (VUpdate u) (ext w1) (as_exc e) _ _
                   (decoding_returns env handler request j u (ext w1) G D)
                   Bd eq_refl).
    cbn [app] in E. rewrite E. split; reflexivity.
  - assert (C : compose [_extract_json_from_request env handler;
                         _convert_json_to_update env handler;
                         _handle_update_with_app env handler]
                  (VRequest request) (ext w1)
                = (Returns (VResponse (Response_ "ok")),
                   ext (snd (process_update env (the_application env) u
                               {| ext := ext w ++ [Initialize]; trace := [] |}))
                     ++ [Shutdown])).
    { cbn [compose].
      rewrite (extract_returns env handler request _ j G).
      rewrite (convert_returns env handler j _ u D).
      rewrite Bd. reflexivity. }
    rewrite (safe_pipe_succeeds _ _ _ _ _ C). split; reflexivity.
Qed.

Lemma post_brackets_dispatch_witness :
  method post_request = "POST"
  /\ (forall h,
        respond (sample_env audio_store shutdown_fails (Some help_command)) h
          Shutdown = Some network_error)
  /\ ext (snd (handle_request
                 (sample_env audio_store shutdown_fails (Some help_command))
                 post_request fresh))
     = [Initialize; SendChatAction 7 TYPING; ReplyMarkdown 7 help_text; Shutdown]
  /\ fst (handle_request
            (sample_env audio_store shutdown_fails (Some help_command))
            post_request fresh)
     = Raise (HttpsError ABORTED
                ("error in RequestHandler._handle_update_with_app: "
                   +:+ lib_str network_error)
                (Some (as_exc network_error))).
Proof.
  split; [reflexivity|]. split; [reflexivity|].
  destruct (post_brackets_dispatch
              (sample_env audio_store shutdown_fails (Some help_command))
              post_request fresh (JString "{}") (Some help_command)
              (Some network_error) eq_refl eq_refl eq_refl eq_refl eq_refl
              (fun _ => eq_refl)) as [X F].
  split; [rewrite X; reflexivity | exact F].
Defined.

(** X17: when the library refuses the token, every request, whatever its
    verb, is answered with the ABORTED error of [_build_application]; no
    handler is registered, no call is made and no other step is run. *)
Theorem refused_token_fails_every_request env request (w : Wd) e :
  build env (BOT_TOKEN env) = Some e ->
  handle_request env request w
  = (Raise (HttpsError ABORTED
              ("error in AppBuilder._build_application: " +:+ lib_str e)
              (Some (as_exc e))),
     {| ext := ext w;
        trace := trace w
                   ++ [ATTEMPT "AppBuilder._build_application";
                       Invoked "AppBuilder._build_application"
                         (VStr (BOT_TOKEN env)) [];
                       FAILURE "AppBuilder._build_application"
                         (VStr (BOT_TOKEN env)) (as_exc e)] |}).
Proof.
  intros H. unfold handle_request, bind.
  rewrite (application_is_refused env w e H). reflexivity.
Qed.

Lemma refused_token_fails_every_request_witness :
  build (with_bad_token (sample_env audio_store all_fine None))
    (BOT_TOKEN (with_bad_token (sample_env audio_store all_fine None)))
  = Some invalid_token
  /\ fst (handle_request (with_bad_token (sample_env audio_store all_fine None))
            get_request fresh)
     = Raise (HttpsError ABORTED
                "error in AppBuilder._build_application: invalid token"
                (Some (as_exc invalid_token)))
  /\ ext (snd (handle_request
                 (with_bad_token (sample_env audio_store all_fine None))
                 get_request fresh)) = [].
Proof.
  split; [reflexivity|].
  rewrite (refused_token_fails_every_request
             (with_bad_token (sample_env audio_store all_fine None))
             get_request fresh invalid_token eq_refl).
  split; reflexivity.
Defined.

Lemma get_calls env request (w : Wd) :
  method request = "GET" ->
  build env (BOT_TOKEN env) = None ->
  ext (snd (handle_request env request w)) = ext w ++ [SetWebhook (ENDPOINT env)].
Proof.
  intros Hm B.
  rewrite (handle_request_built env request w B), Hm.
  cbn [String.eqb Ascii.eqb Bool.eqb].
  set (w1 := {| ext := ext w; trace := trace w ++ construction_log env |}).
  set (handler := {| telegram_app := the_application env |}).
  destruct (respond env (ext w) (SetWebhook (ENDPOINT env))) as [e|] eqn:R.
  - assert (Bd : body (_set_bot_webhook env handler) (VStr (ENDPOINT env)) (ext w1)
                 = (Raises (as_exc e), ext w ++ [SetWebhook (ENDPOINT env)], []))
      by (cbn [body _set_bot_webhook]; unfold perform; cbn [ext w1];
          rewrite R; reflexivity).
    assert (E := safe_pipe_fails [] (_set_bot_webhook env handler) []
                   (VStr (ENDPOINT env)) w1 (VStr (ENDPOINT env)) (ext w1)
                   (as_exc e) (ext w ++ [SetWebhook (ENDPOINT env)]) []
                   eq_refl Bd eq_refl).
    cbn [app] in E. rewrite E. reflexivity.
  - assert (C : compose [_set_bot_webhook env handler] (VStr (ENDPOINT env))
                  (ext w1)
                = (Returns (VResponse (Response_ "Set webhook")),
                   ext w ++ [SetWebhook (ENDPOINT env)]))
      by (cbn [compose body _set_bot_webhook]; unfold perform; cbn [ext w1];
          rewrite R; reflexivity).
    rewrite (safe_pipe_succeeds _ _ _ _ _ C). reflexivity.
Qed.

(** X18: two GETs in a row, whatever each carries, ask the gateway for the
    same registration twice: [set_webhook] is called with the configured
    endpoint both times, and with nothing else. *)
Theorem repeated_get_registers_the_same_url env first second (w : Wd) :
  method first = "GET" ->
  method second = "GET" ->
  build env (BOT_TOKEN env) = None ->
  ext (snd (handle_request env second (snd (handle_request env first w))))
  = ext w ++ [SetWebhook (ENDPOINT env); SetWebhook (ENDPOINT env)].
Proof.
  intros H1 H2 B.
  rewrite (get_calls env second _ H2 B), (get_calls env first w H1 B).
  rewrite <- app_assoc. reflexivity.
Qed.

Lemma repeated_get_registers_the_same_url_witness :
  method get_request = "GET"
  /\ method {| method := "GET"; query := ""; data := "" |} = "GET"
  /\ build (sample_env audio_store all_fine None)
       (BOT_TOKEN (sample_env audio_store all_fine None)) = None
  /\ ext (snd (handle_request (sample_env audio_store all_fine None)
                 {| method := "GET"; query := ""; data := "" |}
                 (snd (handle_request (sample_env audio_store all_fine None)
                         get_request fresh))))
     = ext fresh ++ [SetWebhook "https://bot.example/hook";
                     SetWebhook "https://bot.example/hook"].
Proof.
  split; [reflexivity|]. split; [reflexivity|]. split; [reflexivity|].
  apply (repeated_get_registers_the_same_url
           (sample_env audio_store all_fine None) get_request
           {| method := "GET"; query := ""; data := "" |} fresh);
    reflexivity.
Defined.

(** ** Worked instances *)

Lemma safe_pipe_calls_a_prefix_witness :
  exists k log,
    k <= length [incr; failing value_error; twice]
    /\ trace (snd (safe_pipe 3 [incr; failing value_error; twice] idle))
       = trace idle ++ log
    /\ invocations log
       = map qualname (firstn k [incr; failing value_error; twice])
    /\ length (List.filter is_attempt log) = k
    /\ (forall y,
          fst (safe_pipe 3 [incr; failing value_error; twice] idle) = Ok y ->
          k = length [incr; failing value_error; twice]).
Proof.
  exact (safe_pipe_calls_a_prefix [incr; failing value_error; twice] 3 idle).
Defined.


(** ** Voice notes and [/honk] *)

Lemma filter_length_map {A B : Type} (f : A -> B) (p : B -> bool) (l : list A) :
  length (List.filter p (map f l)) = length (List.filter (fun a => p (f a)) l).
Proof.
  induction l as [|a l IH]; [reflexivity|].
  cbn [map List.filter]. destruct (p (f a)); cbn [length]; rewrite IH; reflexivity.
Qed.

(** The positions at which a name stands are as many as its occurrences. *)
Lemma positions_count (names : list string) (name : string) :
  length (List.filter (fun k => String.eqb (nth k names "") name)
            (seq 0 (length names)))
  = count_occ string_dec names name.
Proof.
  induction names as [|a names IH]; [reflexivity|].
  cbn [length seq]. rewrite <- seq_shift. cbn [List.filter nth count_occ].
  destruct (String.eqb_spec a name) as [Heq|Hne];
    destruct (string_dec a name) as [Heq'|Hne']; try contradiction;
    cbn [length]; rewrite filter_length_map; cbn [nth]; rewrite IH;
    reflexivity.
Qed.

(** A name that occurs once stands at one position. *)
Lemma one_position_per_name (names : list string) (name : string) :
  List.NoDup names -> In name names ->
  length (List.filter (fun k => String.eqb (nth k names "") name)
            (seq 0 (length names))) = 1.
Proof.
  intros Hnd Hin. rewrite positions_count.
  apply (proj1 (NoDup_count_occ' string_dec names) Hnd name Hin).
Qed.

(** What [random_blob] returns when the generator draws [k]. *)
Lemma random_blob_by_draw env prefix delimiter (w : Wd) k :
  respond env (ext w) (ListBlobs prefix delimiter) = None ->
  distinct_names prefix (list_blobs env prefix delimiter) <> [] ->
  fst (random_blob (with_draw k env) prefix delimiter w)
  = Ok (VBlob (nth (k mod length
                       (distinct_names prefix (list_blobs env prefix delimiter)))
                 (distinct_names prefix (list_blobs env prefix delimiter)) "")).
Proof.
  intros R Hne.
  exact (proj1 (random_blob_chooses (with_draw k env) prefix delimiter w R Hne)).
Qed.

(** Each candidate is returned for exactly one of the values the index
    drawn by [random.choice] can take. *)
Lemma one_draw_per_candidate env prefix delimiter (w : Wd) candidate :
  respond env (ext w) (ListBlobs prefix delimiter) = None ->
  In candidate (list_blobs env prefix delimiter) ->
  Some candidate <> prefix ->
  length
    (List.filter
       (fun k => picks (fst (random_blob (with_draw k env) prefix delimiter w))
                       candidate)
       (seq 0 (length (distinct_names prefix (list_blobs env prefix delimiter)))))
  = 1.
Proof.
  intros R Hin Hp.
  assert (Hne := distinct_names_cons _ _ _ Hin Hp).
  set (names := distinct_names prefix (list_blobs env prefix delimiter)) in *.
  rewrite (filter_ext_in
             (fun k => picks (fst (random_blob (with_draw k env) prefix
                                     delimiter w)) candidate)
             (fun k => String.eqb (nth k names "") candidate)).
  - apply one_position_per_name.
    + unfold names, distinct_names. apply NoDup_ListNoDup, NoDup_elements.
    + apply distinct_names_In. split; assumption.
  - intros k Hk. apply in_seq in Hk.
    rewrite (random_blob_by_draw env prefix delimiter w k R Hne).
    fold names. cbn [picks]. rewrite Nat.mod_small by lia. reflexivity.
Qed.

(** C10: in the application that the construction pipeline
    ([_build_application], then [_register_handlers]) returns, an event of
    the voice kind is routed to the handler that the command [/honk] is
    routed to, [honk], and dispatching it does to the world what
    dispatching [/honk] from the same chat does.  That effect: the
    recording-voice presence, then the listing of "audio/", the download of
    the chosen blob and its bytes sent as a voice reply of duration 1; the
    chosen blob is listed under "audio/" and is not "audio/" itself.  The
    choice is uniform: the candidates are distinct, and of the values the
    index drawn by [random.choice] can take, as many as there are
    candidates, exactly one makes [random_blob] return a given candidate. *)
Theorem voice_is_handled_as_honk env (w0 : Wd) built update (w : Wd) :
  kind update = VOICE ->
  fst (safe_pipe (VStr (BOT_TOKEN env))
         [_build_application env; _register_handlers] w0)
  = Ok (VApplication built) ->
  select built update = Some cb_honk
  /\ select built (honk_command (chatId update)) = Some cb_honk
  /\ process_update env built (Some update) w
     = process_update env built (Some (honk_command (chatId update))) w
  /\ ext (snd (run_callback env cb_honk update w))
     = ext w ++ SendChatAction (chatId update) RECORD_VOICE ::
         match respond env (ext w)
                 (SendChatAction (chatId update) RECORD_VOICE) with
         | Some _ => []
         | None =>
             fetch_calls env (Some "audio/") None
               (fun file => ReplyVoice (chatId update) file 1)
               (ext w ++ [SendChatAction (chatId update) RECORD_VOICE])
         end
  /\ ((forall h c, respond env h c = None) ->
      forall candidate,
        In candidate (list_blobs env (Some "audio/") None) ->
        candidate <> "audio/" ->
        exists name,
          In name (list_blobs env (Some "audio/") None)
          /\ name <> "audio/"
          /\ String.prefix "audio/" name = true
          /\ run_callback env cb_honk update w
             = (Ok tt,
                {| ext := ext w ++ [SendChatAction (chatId update) RECORD_VOICE;
                                    ListBlobs (Some "audio/") None;
                                    Download name;
                                    ReplyVoice (chatId update) (content env name) 1];
                   trace := trace (snd (run_callback env cb_honk update w)) |}))
  /\ List.NoDup (distinct_names (Some "audio/")
                   (list_blobs env (Some "audio/") None))
  /\ (forall (w1 : Wd) candidate,
        respond env (ext w1) (ListBlobs (Some "audio/") None) = None ->
        In candidate (list_blobs env (Some "audio/") None) ->
        candidate <> "audio/" ->
        length
          (List.filter
             (fun k => picks (fst (random_blob (with_draw k env) (Some "audio/")
                                     None w1)) candidate)
             (seq 0 (length (distinct_names (Some "audio/")
                               (list_blobs env (Some "audio/") None)))))
        = 1).
Proof.
  intros Hk Hb.
  destruct (safe_pipe (VStr (BOT_TOKEN env))
              [_build_application env; _register_handlers] w0)
    as [o w0'] eqn:P.
  cbn [fst] in Hb. subst o.
  assert (B := built_application env w0 _ w0' P). injection B as ->.
  split; [apply select_voice; exact Hk|].
  split; [reflexivity|].
  split; [|split; [apply honk_calls|split; [|split]]].
  - unfold process_update.
    rewrite (select_voice env update Hk), select_honk_command.
    cbn [run_callback the_application error_handlers app process_error].
    rewrite (honk_same_chat env update (honk_command (chatId update)) eq_refl).
    rewrite (oops_same_chat env update (honk_command (chatId update)) eq_refl).
    reflexivity.
  - intros Hall candidate Hin Hne.
    assert (Hc : Some candidate <> Some "audio/") by congruence.
    assert (Hnames := distinct_names_cons _ _ _ Hin Hc).
    set (names := distinct_names (Some "audio/")
                    (list_blobs env (Some "audio/") None)) in *.
    set (name := nth (draw env mod length names) names "").
    assert (Hn : In name names) by (apply chosen_In; exact Hnames).
    apply distinct_names_In in Hn. destruct Hn as [Hl Hp].
    exists name. split; [exact Hl|]. split; [congruence|].
    split; [apply (listed_under_prefix _ _ _ _ Hl)|].
    cbn [run_callback]. unfold honk. rewrite decorated_run, Hall.
    destruct (fetch_and_send_succeeds env "honk" (Some "audio/") None
                (fun file => ReplyVoice (chatId update) file 1)
                {| ext := ext w ++ [SendChatAction (chatId update) RECORD_VOICE];
                   trace := trace w |} Hall Hnames) as [F X].
    fold names in F, X. fold name in X.
    unfold fetch_and_send in F, X.
    destruct (bind (random_blob env (Some "audio/") None) _ _) as [o w2].
    cbn [fst snd ext trace] in *. subst o.
    destruct w2 as [e2 t2]. cbn [ext trace] in *. subst e2.
    rewrite <- app_assoc. reflexivity.
  - unfold distinct_names. apply NoDup_ListNoDup, NoDup_elements.
  - intros w1 candidate R Hin Hne.
    apply one_draw_per_candidate; [exact R | exact Hin | congruence].
Qed.

Lemma voice_is_handled_as_honk_witness :
  kind voice_note = VOICE
  /\ fst (safe_pipe
            (VStr (BOT_TOKEN (sample_env audio_store all_fine (Some voice_note))))
            [_build_application (sample_env audio_store all_fine (Some voice_note));
             _register_handlers] fresh)
     = Ok (VApplication
             (the_application (sample_env audio_store all_fine (Some voice_note))))
  /\ select (the_application (sample_env audio_store all_fine (Some voice_note)))
       voice_note = Some cb_honk
  /\ process_update (sample_env audio_store all_fine (Some voice_note))
       (the_application (sample_env audio_store all_fine (Some voice_note)))
       (Some voice_note) started
     = process_update (sample_env audio_store all_fine (Some voice_note))
         (the_application (sample_env audio_store all_fine (Some voice_note)))
         (Some (honk_command 7)) started
  /\ ext (snd (run_callback (sample_env audio_store all_fine (Some voice_note))
                 cb_honk voice_note started))
     = [Initialize; SendChatAction 7 RECORD_VOICE; ListBlobs (Some "audio/") None;
        Download "audio/b.ogg"; ReplyVoice 7 [79; 103; 103; 83]%N 1].
Proof.
  assert (H : fst (safe_pipe
                     (VStr (BOT_TOKEN
                              (sample_env audio_store all_fine (Some voice_note))))
                     [_build_application
                        (sample_env audio_store all_fine (Some voice_note));
                      _register_handlers] fresh)
              = Ok (VApplication
                      (the_application
                         (sample_env audio_store all_fine (Some voice_note)))))
    by reflexivity.
  split; [reflexivity|]. split; [exact H|].
  destruct (voice_is_handled_as_honk
              (sample_env audio_store all_fine (Some voice_note)) fresh
              (the_application (sample_env audio_store all_fine (Some voice_note)))
              voice_note started eq_refl H) as (H1 & _ & H3 & _).
  split; [exact H1|]. split; [exact H3|]. vm_compute; reflexivity.
Defined.
